(** * grsync: the streaming progress parser of [task.go]

    A shallow embedding of the progress parser of the grsync wrapper
    around rsync (file [task.go]): the line splitter handed to the
    scanner, the three pattern matchers, the counter, speed and
    transferred-size decoders, the filename classifier, the per-line state
    update, and the start/join discipline of [Task.Run].

    Go strings and byte slices are sequences of bytes; both are embedded
    as [string] (a list of 8-bit [ascii] characters).  The Go [int] is the
    64-bit one; machine integers are embedded in [Z] with the wrap-around
    written out where the code can reach it.  A [float64] is a [spec_float]
    of precision 53 and maximal exponent 1024. *)

From Stdlib Require Import ZArith NArith List Bool Ascii String Lia.
From Stdlib Require Import Floats.SpecFloat.
Import ListNotations.

Open Scope string_scope.

(** ** Bytes *)

Definition byteZ (c : ascii) : Z := Z.of_N (N_of_ascii c).

Definition LF : ascii := "010"%char.
Definition CR : ascii := "013"%char.

Definition isDigit (c : ascii) : bool :=
  ((48 <=? byteZ c) && (byteZ c <=? 57))%Z.

(** [lower] of package strconv: sets bit 5, which maps the ASCII capital
    letters to the small ones. *)
Definition lower (c : ascii) : ascii :=
  let '(Ascii b0 b1 b2 b3 b4 _ b6 b7) := c in Ascii b0 b1 b2 b3 b4 true b6 b7.

Definition isLetter (c : ascii) : bool :=
  ((97 <=? byteZ (lower c)) && (byteZ (lower c) <=? 122))%Z.

(** Slicing: [s[lo:]] and [s[:hi]]. *)
Fixpoint sliceFrom (lo : nat) (s : string) : string :=
  match lo, s with
  | O, _ => s
  | S n, String _ s' => sliceFrom n s'
  | S _, EmptyString => EmptyString
  end.

Fixpoint sliceTo (hi : nat) (s : string) : string :=
  match hi, s with
  | O, _ => EmptyString
  | S n, String c s' => String c (sliceTo n s')
  | S _, EmptyString => EmptyString
  end.

Definition slice (s : string) (lo hi : nat) : string :=
  sliceTo (hi - lo) (sliceFrom lo s).

Fixpoint elem (c : ascii) (chars : string) : bool :=
  match chars with
  | EmptyString => false
  | String d chars' => Ascii.eqb c d || elem c chars'
  end.

(** ** Package bytes *)

Module bytes.

(** [bytes.IndexAny] for a set of ASCII characters: the index of the first
    byte of [s] that is in [chars]; [None] stands for the [-1] of Go. *)
Fixpoint IndexAny (s chars : string) : option nat :=
  match s with
  | EmptyString => None
  | String c s' =>
      if elem c chars then Some O else option_map S (IndexAny s' chars)
  end.

End bytes.

(** ** Package strings *)

Module strings.

(** [len(s) >= len(prefix) && s[:len(prefix)] == prefix] *)
Definition HasPrefix (s pre : string) : bool :=
  (length pre <=? length s)%nat && String.eqb (sliceTo (length pre) s) pre.

(** [len(s) >= len(suffix) && s[len(s)-len(suffix):] == suffix] *)
Definition HasSuffix (s suf : string) : bool :=
  (length suf <=? length s)%nat
  && String.eqb (sliceFrom (length s - length suf) s) suf.

(** [strings.Contains]: some position of [s] starts with [sub]. *)
Fixpoint Contains (s sub : string) : bool :=
  HasPrefix s sub
  || match s with
     | EmptyString => false
     | String _ s' => Contains s' sub
     end.

(** [strings.Split] for a non-empty separator: the pieces between the
    successive, non-overlapping occurrences of [sep], scanning from the
    left.  [skip] counts the bytes of an occurrence still to be passed. *)
Fixpoint splitFrom (sep : string) (skip : nat) (s : string) : list string :=
  match s with
  | EmptyString => [EmptyString]
  | String c s' =>
      match skip with
      | S k => splitFrom sep k s'
      | O =>
          if HasPrefix s sep
          then EmptyString :: splitFrom sep (length sep - 1) s'
          else match splitFrom sep O s' with
               | piece :: rest => String c piece :: rest
               | [] => [String c EmptyString]
               end
      end
  end.

(** With an empty separator Go splits after each UTF-8 sequence; the
    program never does that, and the embedding gives the bytes. *)
Definition Split (s sep : string) : list string :=
  match sep with
  | EmptyString => map (fun c => String c EmptyString) (list_ascii_of_string s)
  | _ => splitFrom sep O s
  end.

(** [strings.ReplaceAll (s, old, new)] for a non-empty [old]. *)
Fixpoint replaceFrom (old new : string) (skip : nat) (s : string) : string :=
  match s with
  | EmptyString => EmptyString
  | String c s' =>
      match skip with
      | S k => replaceFrom old new k s'
      | O =>
          if HasPrefix s old
          then new ++ replaceFrom old new (length old - 1) s'
          else String c (replaceFrom old new O s')
      end
  end.

Definition ReplaceAll (s old new : string) : string :=
  replaceFrom old new O s.

(** The UTF-8 encodings of the characters of [unicode.IsSpace]: the ASCII
    ones, U+0085, U+00A0, U+1680, U+2000 to U+200A, U+2028, U+2029, U+202F,
    U+205F and U+3000. *)
Definition bytesOf (l : list nat) : string :=
  string_of_list_ascii (map ascii_of_nat l).

Definition spaces : list string :=
  map bytesOf
    ([ [9]; [10]; [11]; [12]; [13]; [32]; [194; 133]; [194; 160];
       [225; 154; 128] ]
     ++ map (fun k => [226; 128; 128 + k]) (seq 0 11)
     ++ [ [226; 128; 168]; [226; 128; 169]; [226; 128; 175];
          [226; 129; 159]; [227; 128; 128] ])%nat%list.

Fixpoint trimLeft (fuel : nat) (s : string) : string :=
  match fuel with
  | O => s
  | S fuel' =>
      match find (fun w => HasPrefix s w) spaces with
      | Some w => trimLeft fuel' (sliceFrom (length w) s)
      | None => s
      end
  end.

Fixpoint trimRight (fuel : nat) (s : string) : string :=
  match fuel with
  | O => s
  | S fuel' =>
      match find (fun w => HasSuffix s w) spaces with
      | Some w => trimRight fuel' (sliceTo (length s - length w) s)
      | None => s
      end
  end.

(** [strings.TrimSpace]: the white space at both ends is cut off; every
    cut takes a byte or more, so [length s] rounds are enough. *)
Definition TrimSpace (s : string) : string :=
  let s := trimLeft (length s) s in
  trimRight (length s) s.

End strings.

(** ** The line splitter *)

(** [scanProgressLines]: the [bufio.SplitFunc] of the stdout scanner.  The
    result is [(advance, token)]; the token [None] is Go's [nil] (no line
    yet), which the scanner tells apart from an empty line.  The error
    result is [nil] on every path and is left out. *)
Definition scanProgressLines (data : string) (atEOF : bool)
  : nat * option string :=
  if atEOF && (length data =? 0)%nat then (O, None)
  else
    match bytes.IndexAny data (String CR (String LF EmptyString)) with
    | Some i =>
        if match get i data with Some c => Ascii.eqb c LF | None => false end
        then (i + 1, Some (slice data 0 i))%nat
        else
          let advance := (i + 1)%nat in
          let advance :=
            if (i + 1 <? length data)%nat
               && match get (i + 1) data with
                  | Some c => Ascii.eqb c LF
                  | None => false
                  end
            then (advance + 1)%nat else advance in
          (advance, Some (slice data 0 i))
    | None =>
        if atEOF then (length data, Some data) else (O, None)
    end.

(** A byte sequence without line delimiter. *)
Definition noDelimiter (s : string) : Prop :=
  forall c, In c (list_ascii_of_string s) -> c <> CR /\ c <> LF.

(** ** Package strconv: integers *)

Module strconv.

Definition intSize : Z := 64.
Definition maxUint64 : Z := 2 ^ 64 - 1.

(** The two errors of a [*NumError]. *)
Inductive numError := ErrSyntax | ErrRange.

Definition digitVal (c : ascii) : Z := byteZ c - 48.

(** The loop of [ParseUint (s, 10, 0)]: [n] is a [uint64], the
    multiplication and the addition wrap modulo [2^64], and the first byte
    that is no decimal digit, or the first step that leaves the range, ends
    the loop at once.  (An underscore is read only for base 0 and a letter
    is a digit of value 10 or more: both are syntax errors in base 10.) *)
Fixpoint parseUintLoop (s : string) (n : Z) : Z * option numError :=
  match s with
  | EmptyString => (n, None)
  | String c s' =>
      if isDigit c then
        let d := digitVal c in
        let cutoff := maxUint64 / 10 + 1 in
        let maxVal := 2 ^ intSize - 1 in
        if cutoff <=? n then (maxVal, Some ErrRange)
        else
          let n := (n * 10) mod 2 ^ 64 in
          let n1 := (n + d) mod 2 ^ 64 in
          if (n1 <? n) || (maxVal <? n1) then (maxVal, Some ErrRange)
          else parseUintLoop s' n1
      else (0, Some ErrSyntax)
  end%Z.

Definition ParseUint (s : string) : Z * option numError :=
  match s with
  | EmptyString => (0%Z, Some ErrSyntax)
  | _ => parseUintLoop s 0
  end.

(** [ParseInt (s, 10, 0)] *)
Definition ParseInt (s : string) : Z * option numError :=
  match s with
  | EmptyString => (0, Some ErrSyntax)
  | String c0 s' =>
      let neg := Ascii.eqb c0 "-" in
      let s1 := if Ascii.eqb c0 "+" || neg then s' else s in
      let '(un, err) := ParseUint s1 in
      match err with
      | Some ErrSyntax => (0, err)
      | _ =>
          let cutoff := 2 ^ (intSize - 1) in
          if negb neg && (cutoff <=? un) then (cutoff - 1, Some ErrRange)
          else if neg && (cutoff <? un) then (- cutoff, Some ErrRange)
          else ((if neg then - un else un), None)
      end
  end%Z.

(** The fast path of [Atoi]: fewer than 19 bytes, so that [n] stays in
    range.  [ch -= '0'] wraps in a byte. *)
Fixpoint atoiLoop (s : string) (n : Z) : option Z :=
  match s with
  | EmptyString => Some n
  | String ch s' =>
      let ch := ((byteZ ch - 48) mod 256)%Z in
      if (9 <? ch)%Z then None else atoiLoop s' (n * 10 + ch)%Z
  end.

Definition Atoi (s : string) : Z * option numError :=
  let sLen := length s in
  if ((0 <? sLen) && (sLen <? 19))%nat then
    match s with
    | EmptyString => (0, Some ErrSyntax)
    | String c0 s' =>
        let signed := Ascii.eqb c0 "-" || Ascii.eqb c0 "+" in
        let s1 := if signed then s' else s in
        if signed && (length s1 <? 1)%nat then (0, Some ErrSyntax)
        else
          match atoiLoop s1 0 with
          | None => (0, Some ErrSyntax)
          | Some n => ((if Ascii.eqb c0 "-" then - n else n), None)
          end
    end%Z
  else ParseInt s.

(** The value of a digit string, read from the left after [acc]. *)
Fixpoint decimalFrom (acc : Z) (s : string) : Z :=
  match s with
  | EmptyString => acc
  | String c s' => decimalFrom (acc * 10 + digitVal c) s'
  end.

Definition decimal (s : string) : Z := decimalFrom 0 s.

End strconv.

Definition allDigits (s : string) : bool :=
  forallb isDigit (list_ascii_of_string s).

(** ** The counter decoder *)

(** [getTaskProgress]: the errors of [Atoi] are dropped ([remain, _ :=]). *)
Definition getTaskProgress (remTotalString : string) : Z * Z :=
  let remTotalSeparator := "/" in
  let numbersCount := 2%nat in
  let info := strings.Split remTotalString remTotalSeparator in
  if (List.length info <? numbersCount)%nat then (0%Z, 0%Z)
  else
    let remain := fst (strconv.Atoi (nth 0 info EmptyString)) in
    let total := fst (strconv.Atoi (nth 1 info EmptyString)) in
    (remain, total).

(** Vocabulary of the statements about decimal numerals. *)

Definition noByte (c : ascii) (s : string) : Prop :=
  ~ In c (list_ascii_of_string s).

(** An optional sign followed by at least one digit, and nothing else. *)
Definition isNumeral (s : string) : bool :=
  match s with
  | EmptyString => false
  | String c s' =>
      if Ascii.eqb c "+" || Ascii.eqb c "-"
      then negb (String.eqb s' EmptyString) && allDigits s'
      else allDigits s
  end.

Definition dropSign (s : string) : string :=
  match s with
  | String c s' => if Ascii.eqb c "+" || Ascii.eqb c "-" then s' else s
  | EmptyString => EmptyString
  end.

(** The longest prefix of digits. *)
Fixpoint digitRun (s : string) : string :=
  match s with
  | String c s' => if isDigit c then String c (digitRun s') else EmptyString
  | EmptyString => EmptyString
  end.

Definition maxInt : Z := 2 ^ 63 - 1.

(** ** The filename classifier *)

(** The status texts of rsync that [isFilename] filters out. *)
Definition verbose : list string :=
  [ "building file list ";
    "sending ";
    "created ";
    "done";
    "total ";
    "total: ";
    "client ";
    "server ";
    "to consider";
    "to-chk=";
    "to-check=" ].

Definition isFilename (str : string) : bool :=
  if String.eqb str EmptyString then false
  else if strings.HasPrefix str "      " then false
  else if strings.HasPrefix str " " then false
  else if existsb (fun v => strings.Contains str v) verbose then false
  else if strings.HasPrefix str "sent" then false
  else if strings.HasSuffix str "/" then false
  else true.

(** ** Package unicode/utf8 *)

Module utf8.

Definition between (lo hi : Z) (c : ascii) : bool :=
  ((lo <=? byteZ c) && (byteZ c <=? hi))%Z.

(** The width that [utf8.DecodeRuneInString] reports for the sequence at
    the head of [s]: the length of a well-formed UTF-8 encoding, and 1 for
    an ASCII byte and for every ill-formed or truncated sequence (which
    decodes to [RuneError]). *)
Definition runeWidth (s : string) : nat :=
  match s with
  | EmptyString => 0
  | String c0 r =>
      let b0 := byteZ c0 in
      if (b0 <? 128)%Z then 1
      else if between 194 223 c0 then
        match r with
        | String c1 _ => if between 128 191 c1 then 2 else 1
        | _ => 1
        end
      else if between 224 239 c0 then
        let lo := if (b0 =? 224)%Z then 160%Z else 128%Z in
        let hi := if (b0 =? 237)%Z then 159%Z else 191%Z in
        match r with
        | String c1 (String c2 _) =>
            if between lo hi c1 && between 128 191 c2 then 3 else 1
        | _ => 1
        end
      else if between 240 244 c0 then
        let lo := if (b0 =? 240)%Z then 144%Z else 128%Z in
        let hi := if (b0 =? 244)%Z then 143%Z else 191%Z in
        match r with
        | String c1 (String c2 (String c3 _)) =>
            if between lo hi c1 && between 128 191 c2 && between 128 191 c3
            then 4 else 1
        | _ => 1
        end
      else 1
  end.

End utf8.

(** ** Package regexp *)

(** The three patterns of [processStdout] use literal characters, the
    classes [.], [\d] and [\S], the greedy repetitions [+] and [*] of a
    class, a counted repetition (written out) and one capture group.  The
    engine below is the leftmost-first backtracking semantics of package
    regexp for that fragment; offsets are byte offsets. *)
Module regexp.

Inductive class : Type :=
| Lit (c : ascii)      (* an ASCII character *)
| AnyNotNL             (* [.]: any character but a newline *)
| Digit                (* [\d]: an ASCII digit *)
| NotSpace.            (* [\S]: any character but tab, newline, form feed,
                          carriage return and space *)

Inductive node : Type :=
| One (c : class)
| Plus (c : class)
| Star (c : class)
| Open                 (* the start of group 1 *)
| Close.               (* the end of group 1 *)

Definition Regexp : Type := list node.

(** The number of bytes of the character at the head of [s] when it is in
    the class. *)
Definition step (c : class) (s : string) : option nat :=
  match s with
  | EmptyString => None
  | String b _ =>
      match c with
      | Lit x => if Ascii.eqb b x then Some 1 else None
      | AnyNotNL => if Ascii.eqb b LF then None else Some (utf8.runeWidth s)
      | Digit => if isDigit b then Some 1 else None
      | NotSpace =>
          if elem b (String "009" (String "010" (String "012"
                    (String "013" (String " " EmptyString)))))
          then None else Some (utf8.runeWidth s)
      end
  end.

(** The offsets of group 1. *)
Definition group : Type := (option nat * option nat)%type.

(** [run re s pos g]: match [re] against [s], which starts at offset [pos];
    the result is the end offset and the group.  A repetition first takes as
    many characters as it can and gives them back one at a time. *)
Fixpoint run (re : Regexp) (s : string) (pos : nat) (g : group)
  : option (nat * group) :=
  match re with
  | [] => Some (pos, g)
  | One c :: re' =>
      match step c s with
      | Some w => run re' (sliceFrom w s) (pos + w) g
      | None => None
      end
  | Open :: re' => run re' s pos (Some pos, snd g)
  | Close :: re' => run re' s pos (fst g, Some pos)
  | Star c :: re' =>
      (fix star (fuel : nat) (s : string) (pos : nat) : option (nat * group) :=
         match fuel with
         | O => run re' s pos g
         | S fuel' =>
             match step c s with
             | Some w =>
                 match star fuel' (sliceFrom w s) (pos + w) with
                 | Some r => Some r
                 | None => run re' s pos g
                 end
             | None => run re' s pos g
             end
         end) (length s) s pos
  | Plus c :: re' =>
      match step c s with
      | Some w =>
          (fix star (fuel : nat) (s : string) (pos : nat) : option (nat * group) :=
             match fuel with
             | O => run re' s pos g
             | S fuel' =>
                 match step c s with
                 | Some w =>
                     match star fuel' (sliceFrom w s) (pos + w) with
                     | Some r => Some r
                     | None => run re' s pos g
                     end
                 | None => run re' s pos g
                 end
             end) (length s) (sliceFrom w s) (pos + w)
      | None => None
      end
  end.

(** The leftmost match at or after offset [pos]: start, end and group. *)
Fixpoint search (re : Regexp) (fuel : nat) (s : string) (pos : nat)
  : option (nat * nat * group) :=
  match run re s pos (None, None) with
  | Some (e, g) => Some (pos, e, g)
  | None =>
      match fuel, s with
      | S fuel', String _ _ =>
          let w := utf8.runeWidth s in
          search re fuel' (sliceFrom w s) (pos + w)
      | _, _ => None
      end
  end.

(** The texts of a match: the whole match, then group 1 (empty when the
    group did not take part). *)
Definition submatch (data : string) (m : nat * nat * group) : list string :=
  let '(b, e, g) := m in
  [ slice data b e;
    match g with
    | (Some gb, Some ge) => slice data gb ge
    | _ => EmptyString
    end ].

Definition MatchString (re : Regexp) (data : string) : bool :=
  match search re (length data) data 0 with
  | Some _ => true
  | None => false
  end.

(** [FindAllStringSubmatch (data, n)] for [n >= 0]: at most [n] successive
    matches, each search starting where the match before ended.  (None of
    the patterns here matches the empty string.) *)
Fixpoint findAllFrom (re : Regexp) (data : string) (n : nat) (pos : nat)
  : list (list string) :=
  match n with
  | O => []
  | S n' =>
      match search re (length data - pos) (sliceFrom pos data) pos with
      | Some (b, e, g) =>
          submatch data (b, e, g)
          :: (if (b <? e)%nat then findAllFrom re data n' e else [])
      | None => []
      end
  end.

Definition FindAllStringSubmatch (re : Regexp) (data : string) (n : nat)
  : list (list string) :=
  findAllFrom re data n 0.

End regexp.

(** ** The matcher *)

(** Modelled from the spec: the matcher type of this package ([newMatcher]
    and its methods [Match], [Extract] and [ExtractAllStringSubmatch]) is
    declared in another file.  By the spec and by the tests next to
    [task.go], [Match] tells whether the pattern occurs in the line,
    [Extract] gives the first capture of the first occurrence (the empty
    string without one), and [ExtractAllStringSubmatch] gives the
    submatches of up to [n] occurrences. *)
Module matcher.

Definition Match (m : regexp.Regexp) (data : string) : bool :=
  regexp.MatchString m data.

Definition Extract (m : regexp.Regexp) (data : string) : string :=
  match regexp.FindAllStringSubmatch m data 1 with
  | (_ :: capture :: _) :: _ => capture
  | _ => EmptyString
  end.

Definition ExtractAllStringSubmatch (m : regexp.Regexp) (data : string)
    (submatchCount : nat) : list (list string) :=
  regexp.FindAllStringSubmatch m data submatchCount.

End matcher.

Import regexp.

(** The pattern of the counter: [\( .+ -chk= ( \d+ . \d+ )] (the blanks
    are not part of it). *)
Definition progressMatcher : Regexp :=
  [ One (Lit "("); Plus AnyNotNL;
    One (Lit "-"); One (Lit "c"); One (Lit "h"); One (Lit "k"); One (Lit "=");
    Open; Plus Digit; One AnyNotNL; Plus Digit; Close ].

(** The pattern of the speed: [( \d+ \. \d+ .{2} \/s )]. *)
Definition speedMatcher : Regexp :=
  [ Open; Plus Digit; One (Lit "."); Plus Digit; One AnyNotNL; One AnyNotNL;
    One (Lit "/"); One (Lit "s"); Close ].

(** The pattern of the transferred size: [( \S+ . * ) %]. *)
Definition transferedMatcher : Regexp :=
  [ Open; Plus NotSpace; Star AnyNotNL; Close; One (Lit "%") ].

(** ** The speed decoder *)

Definition getTaskSpeed (data : list (list string)) : string :=
  match data with
  | (whole :: _) :: _ => whole
  | _ => EmptyString
  end.

(** ** float64 *)

(** IEEE 754 binary64 through the executable specification of the
    standard library: a [spec_float] of precision 53 with exponents below
    1024, every operation rounding to the nearest, ties to even. *)
Module float64.

Definition prec : Z := 53.
Definition emax : Z := 1024.

Definition t : Type := spec_float.

Definition zero : t := S754_zero false.

(** The conversion [float64(i)] of an integer. *)
Definition ofInt (i : Z) : t := binary_normalize prec emax i 0 false.

(** The nearest float to [m * 2^e]. *)
Definition ofBinary (neg : bool) (m : Z) (e : Z) : t :=
  binary_normalize prec emax (if neg then - m else m)%Z e neg.

(** The nearest float to [n / d], for [n >= 0] and [d > 0]: the quotient is
    taken with 64 bits or more and one more bit that tells whether the
    division left a remainder, which is all that rounding needs. *)
Definition ofRatio (neg : bool) (n d : Z) : t :=
  let k := Z.max 0 (Z.log2 d - Z.log2 n + 64) in
  let q := ((n * 2 ^ k) / d)%Z in
  let sticky := if ((n * 2 ^ k) mod d =? 0)%Z then 0%Z else 1%Z in
  ofBinary neg (2 * q + sticky)%Z (- k - 1)%Z.

Definition mul : t -> t -> t := SFmul prec emax.
Definition div : t -> t -> t := SFdiv prec emax.
Definition ltb : t -> t -> bool := SFltb.
Definition eqb : t -> t -> bool := SFeqb.
Definition leb : t -> t -> bool := SFleb.

Definition isNaN (x : t) : bool :=
  match x with S754_nan => true | _ => false end.

Definition signbit (x : t) : bool :=
  match x with
  | S754_zero s | S754_infinity s | S754_finite s _ _ => s
  | S754_nan => false
  end.

(** The integer part, towards zero, of a finite float. *)
Definition truncate (x : t) : option Z :=
  match x with
  | S754_zero _ => Some 0%Z
  | S754_finite s m e =>
      let a := if (0 <=? e)%Z then (Zpos m * 2 ^ e)%Z else (Zpos m / 2 ^ (- e))%Z in
      Some (if s then - a else a)%Z
  | _ => None
  end.

Definition minInt64 : Z := (- 2 ^ 63)%Z.

(** The conversion [int64(x)].  Go leaves the result open when the integer
    part does not fit (or there is none: NaN, infinities); the value taken
    here is the one the amd64 instruction gives, the smallest [int64]. *)
Definition toInt64 (x : t) : Z :=
  match truncate x with
  | Some z => if ((minInt64 <=? z) && (z <? 2 ^ 63))%Z then z else minInt64
  | None => minInt64
  end.

End float64.

(** ** Package math *)

Module math.

(** [math.Max] *)
Definition Max (x y : float64.t) : float64.t :=
  match x, y with
  | S754_infinity false, _ | _, S754_infinity false => S754_infinity false
  | S754_nan, _ | _, S754_nan => S754_nan
  | S754_zero sx, S754_zero _ => if sx then y else x
  | _, _ => if float64.ltb y x then x else y
  end.

End math.

(** ** Package strconv: floats *)

(** [strconv.ParseFloat (s, 64)], by what it accepts and returns: the
    syntax is the one its scanner [readFloat] reads (sign, decimal or
    hexadecimal mantissa with an optional point and underscores between
    digits, exponent) together with the names of infinity and NaN; the value
    is the float64 nearest to the number written, an infinity beyond the
    range; anything else, or a number followed by more text, gives 0 (with
    an error that [getTaskTransfered] drops). *)
Module atof.

Definition toLowerASCII (c : ascii) : ascii :=
  if ((65 <=? byteZ c) && (byteZ c <=? 90))%Z
  then ascii_of_N (N_of_ascii c + 32) else c.

Fixpoint commonPrefixLenIgnoreCase (s pre : string) : nat :=
  match s, pre with
  | String c s', String p pre' =>
      if Ascii.eqb (toLowerASCII c) p
      then S (commonPrefixLenIgnoreCase s' pre') else 0
  | _, _ => 0
  end.

(** [special]: the value and the number of bytes read. *)
Definition special (s : string) : option (float64.t * nat) :=
  match s with
  | EmptyString => None
  | String c0 s' =>
      let signed := Ascii.eqb c0 "+" || Ascii.eqb c0 "-" in
      if signed || Ascii.eqb c0 "i" || Ascii.eqb c0 "I" then
        let body := if signed then s' else s in
        let nsign := if signed then 1 else 0 in
        let n := commonPrefixLenIgnoreCase body "infinity" in
        let n := if (3 <? n) && (n <? 8) then 3 else n in
        if (n =? 3) || (n =? 8)
        then Some (S754_infinity (Ascii.eqb c0 "-"), nsign + n)
        else None
      else if Ascii.eqb c0 "n" || Ascii.eqb c0 "N" then
        if commonPrefixLenIgnoreCase s "nan" =? 3
        then Some (S754_nan, 3) else None
      else None
  end%nat.

Definition isHexLetter (c : ascii) : bool :=
  ((97 <=? byteZ (lower c)) && (byteZ (lower c) <=? 102))%Z.

(** What the mantissa loop of [readFloat] keeps: the digits read as one
    integer, the number of them after the point, and its flags. *)
Record mantissa : Type := {
  digits : Z;
  fraction : Z;
  sawdot : bool;
  sawdigits : bool;
  underscores : bool
}.

Definition push (base d : Z) (m : mantissa) : mantissa :=
  {| digits := digits m * base + d;
     fraction := if sawdot m then fraction m + 1 else fraction m;
     sawdot := sawdot m;
     sawdigits := true;
     underscores := underscores m |}.

Fixpoint readMantissa (hex : bool) (m : mantissa) (s : string)
  : mantissa * string :=
  match s with
  | EmptyString => (m, s)
  | String c s' =>
      if Ascii.eqb c "_" then
        readMantissa hex
          {| digits := digits m; fraction := fraction m; sawdot := sawdot m;
             sawdigits := sawdigits m; underscores := true |} s'
      else if Ascii.eqb c "." then
        if sawdot m then (m, s)
        else readMantissa hex
               {| digits := digits m; fraction := fraction m; sawdot := true;
                  sawdigits := sawdigits m; underscores := underscores m |} s'
      else if isDigit c then
        readMantissa hex (push (if hex then 16 else 10) (byteZ c - 48) m) s'
      else if hex && isHexLetter c then
        readMantissa hex (push 16 (byteZ (lower c) - 97 + 10) m) s'
      else (m, s)
  end.

(** The digits of the exponent; it stops growing at 10000. *)
Fixpoint readExponent (e : Z) (us : bool) (s : string) : Z * bool * string :=
  match s with
  | EmptyString => (e, us, s)
  | String c s' =>
      if isDigit c then
        readExponent (if (e <? 10000)%Z then e * 10 + (byteZ c - 48) else e)%Z us s'
      else if Ascii.eqb c "_" then readExponent e true s'
      else (e, us, s)
  end.

(** [underscoreOK]: an underscore stands between two digits, or after the
    base prefix.  [saw] is the last kind of byte seen. *)
Inductive seen := SawStart | SawDigit | SawUnderscore | SawOther.

Fixpoint underscoreLoop (hex : bool) (saw : seen) (s : string) : bool :=
  match s with
  | EmptyString => match saw with SawUnderscore => false | _ => true end
  | String c s' =>
      if isDigit c || (hex && isHexLetter c) then underscoreLoop hex SawDigit s'
      else if Ascii.eqb c "_" then
        match saw with
        | SawDigit => underscoreLoop hex SawUnderscore s'
        | _ => false
        end
      else
        match saw with
        | SawUnderscore => false
        | _ => underscoreLoop hex SawOther s'
        end
  end.

Definition underscoreOK (s : string) : bool :=
  let s :=
    match s with
    | String c s' => if Ascii.eqb c "-" || Ascii.eqb c "+" then s' else s
    | EmptyString => s
    end in
  match s with
  | String c0 (String c1 s') =>
      let p := lower c1 in
      if Ascii.eqb c0 "0"
         && (Ascii.eqb p "b" || Ascii.eqb p "o" || Ascii.eqb p "x")
      then underscoreLoop (Ascii.eqb p "x") SawDigit s'
      else underscoreLoop false SawStart s
  | _ => underscoreLoop false SawStart s
  end.

(** What [readFloat] reads: the number is
    [(-1)^neg * digits * base^(-fraction) * b^exponent], with [base = 16] and
    [b = 2] for a hexadecimal number and [base = b = 10] otherwise; [rest]
    is what follows it. *)
Record number : Type := {
  neg : bool;
  hex : bool;
  mant : mantissa;
  exponent : Z;
  rest : string
}.

Definition readFloat (s : string) : option number :=
  match s with
  | EmptyString => None
  | String c0 s0 =>
      let neg := Ascii.eqb c0 "-" in
      let s1 := if Ascii.eqb c0 "+" || neg then s0 else s in
      let hex :=
        match s1 with
        | String d0 (String d1 (String _ _)) =>
            Ascii.eqb d0 "0" && Ascii.eqb (lower d1) "x"
        | _ => false
        end in
      let s2 := if hex then sliceFrom 2 s1 else s1 in
      let '(m, s3) :=
        readMantissa hex
          {| digits := 0; fraction := 0; sawdot := false; sawdigits := false;
             underscores := false |} s2 in
      if negb (sawdigits m) then None
      else
        let expChar := if hex then "p"%char else "e"%char in
        let after (e : Z) (us : bool) (r : string) :=
          if (underscores m || us)
             && negb (underscoreOK (sliceTo (length s - length r) s))
          then None
          else Some {| neg := neg; hex := hex; mant := m; exponent := e;
                       rest := r |} in
        match s3 with
        | String x s4 =>
            if Ascii.eqb (lower x) expChar then
              match s4 with
              | EmptyString => None
              | String y s5 =>
                  let esign := if Ascii.eqb y "-" then (-1)%Z else 1%Z in
                  let s6 :=
                    if Ascii.eqb y "+" || Ascii.eqb y "-" then s5 else s4 in
                  match s6 with
                  | String z _ =>
                      if isDigit z then
                        let '(e, us, r) := readExponent 0 false s6 in
                        after (e * esign)%Z us r
                      else None
                  | EmptyString => None
                  end
              end
            else if hex then None
            else after 0%Z false s3
        | EmptyString => if hex then None else after 0%Z false s3
        end
  end.

(** The float nearest to the number read. *)
Definition value (n : number) : float64.t :=
  let m := digits (mant n) in
  if hex n then
    float64.ofBinary (neg n) m (exponent n - 4 * fraction (mant n))
  else
    let e := (exponent n - fraction (mant n))%Z in
    if (0 <=? e)%Z then float64.ofBinary (neg n) (m * 10 ^ e) 0
    else if (m =? 0)%Z then S754_zero (neg n)
    else float64.ofRatio (neg n) m (10 ^ (- e)).

Definition ParseFloat (s : string) : float64.t :=
  match special s with
  | Some (f, n) => if (n =? length s)%nat then f else float64.zero
  | None =>
      match readFloat s with
      | Some n =>
          match rest n with
          | EmptyString => value n
          | _ => float64.zero
          end
      | None => float64.zero
      end
  end.

End atof.

(** ** The transferred-size decoder *)

Definition units : list string :=
  ["KB"; "K"; "MB"; "M"; "GB"; "G"; "TB"; "T"].

(** The loop over [units]: the first unit that ends [s], and [s] without
    it; no unit and [numberStr] as it was when none does. *)
Fixpoint findUnit (us : list string) (s numberStr : string) : string * string :=
  match us with
  | [] => (EmptyString, numberStr)
  | u :: us' =>
      if strings.HasSuffix s u
      then (u, sliceTo (length s - length u) s)
      else findUnit us' s numberStr
  end.

Definition inUnits (unit : string) (a b : string) : bool :=
  String.eqb unit a || String.eqb unit b.

(** The part of [getTaskTransfered] that turns the size token into bytes
    (from [var unit string] to the end of the [switch]). *)
Definition sizeToBytes (token : string) : Z :=
  let '(unit, numberStr) := findUnit units token token in
  let numberStr := strings.ReplaceAll numberStr "," "" in
  let numberStr := strings.TrimSpace numberStr in
  let number := atof.ParseFloat numberStr in
  let k := float64.ofInt 1024 in
  let mul := float64.mul in
  if inUnits unit "KB" "K" then float64.toInt64 (mul number k)
  else if inUnits unit "MB" "M" then float64.toInt64 (mul (mul number k) k)
  else if inUnits unit "GB" "G" then
    float64.toInt64 (mul (mul (mul number k) k) k)
  else if inUnits unit "TB" "T" then
    float64.toInt64 (mul (mul (mul (mul number k) k) k) k)
  else float64.toInt64 number.

(** [getTaskTransfered]: [(transferedBytes, transferedPercent)]. *)
Definition getTaskTransfered (transfered : string) : Z * Z :=
  let info := strings.Split transfered " " in
  if (List.length info <? 2)%nat then (0%Z, 0%Z)
  else
    let percentStr := nth (List.length info - 1) info EmptyString in
    let transferedPercent := fst (strconv.Atoi percentStr) in
    (sizeToBytes (nth 0 info EmptyString), transferedPercent).

(** ** The task and its state *)

Record State : Type := {
  Remain : Z;
  Total : Z;
  Speed : string;
  Progress : float64.t;
  Filename : string;
  TransferedBytes : Z;
  TransferedPercent : Z
}.

Record Log : Type := {
  Stderr : string;
  Stdout : string
}.

Record Task : Type := {
  state : State;
  log : Log
}.

(** [NewTask] starts from [&State{}] and [&Log{}]. *)
Definition emptyState : State :=
  {| Remain := 0; Total := 0; Speed := EmptyString; Progress := float64.zero;
     Filename := EmptyString; TransferedBytes := 0; TransferedPercent := 0 |}.

Definition NewTask : Task :=
  {| state := emptyState;
     log := {| Stderr := EmptyString; Stdout := EmptyString |} |}.

(** Arithmetic of [int]: the result wraps into [-2^63 .. 2^63 - 1]. *)
Definition wrapInt (z : Z) : Z := ((z + 2 ^ 63) mod 2 ^ 64 - 2 ^ 63)%Z.

(** The progress value that [processStdout] stores for a counter. *)
Definition progressOf (remain total : Z) : float64.t :=
  let maxPercents := float64.ofInt 100 in
  let minDivider := 1%Z in
  let copiedCount := float64.ofInt (wrapInt (total - remain)) in
  float64.mul
    (float64.div copiedCount
       (math.Max (float64.ofInt total) (float64.ofInt minDivider)))
    maxPercents.

(** The body of the loop of [processStdout], for one line of the scanner. *)
Definition processStdoutLine (task : Task) (logStr : string) : Task :=
  let st := state task in
  let st :=
    if matcher.Match progressMatcher logStr then
      let '(remain, total) :=
        getTaskProgress (matcher.Extract progressMatcher logStr) in
      {| Remain := remain; Total := total; Speed := Speed st;
         Progress := progressOf remain total;
         Filename := Filename st; TransferedBytes := TransferedBytes st;
         TransferedPercent := TransferedPercent st |}
    else st in
  let st :=
    if matcher.Match speedMatcher logStr then
      {| Remain := Remain st; Total := Total st;
         Speed :=
           getTaskSpeed (matcher.ExtractAllStringSubmatch speedMatcher logStr 2);
         Progress := Progress st;
         Filename := Filename st; TransferedBytes := TransferedBytes st;
         TransferedPercent := TransferedPercent st |}
    else st in
  let st :=
    if matcher.Match transferedMatcher logStr then
      let '(bytes, percent) :=
        getTaskTransfered (matcher.Extract transferedMatcher logStr) in
      {| Remain := Remain st; Total := Total st; Speed := Speed st;
         Progress := Progress st; Filename := Filename st;
         TransferedBytes := bytes; TransferedPercent := percent |}
    else st in
  let st :=
    if isFilename logStr then
      {| Remain := Remain st; Total := Total st; Speed := Speed st;
         Progress := Progress st; Filename := logStr;
         TransferedBytes := TransferedBytes st;
         TransferedPercent := TransferedPercent st |}
    else st in
  {| state := st;
     log := {| Stderr := Stderr (log task);
               Stdout := Stdout (log task) ++ logStr ++ String LF EmptyString |} |}.

(** [processStdout], over the lines that the scanner yields in turn. *)
Definition processStdout (task : Task) (lines : list string) : Task :=
  fold_left processStdoutLine lines task.

(** [processStderr] likewise. *)
Definition processStderr (task : Task) (lines : list string) : Task :=
  fold_left
    (fun t line =>
       {| state := state t;
          log := {| Stderr := Stderr (log t) ++ line ++ String LF EmptyString;
                    Stdout := Stdout (log t) |} |})
    lines task.

(** The example lines of the tests next to [task.go]. *)
Definition speedLine : string :=
  "999,999 99%  999.99kB/s    0:00:59 (xfr#9, to-chk=999/9999)".

Definition transferedLine : string :=
  "123,456 78%  87.65kB/s    0:00:59 (xfr#9, to-chk=999/9999)".

(** A progress line whose counter has the byte [sep] between its two runs
    of digits. *)
Definition counterLine (sep : ascii) : string :=
  "(xfr#9, to-chk=12" ++ String sep "34)".

(** The state after a line, field by field: every field is the value read
    from the line when its matcher fires, and the old value otherwise.
    [processStdoutLine_state] shows that this is what [processStdoutLine]
    computes. *)
Definition lineState (logStr : string) (st : State) : State :=
  let counter := matcher.Match progressMatcher logStr in
  let rt := getTaskProgress (matcher.Extract progressMatcher logStr) in
  let transfered := matcher.Match transferedMatcher logStr in
  let bp := getTaskTransfered (matcher.Extract transferedMatcher logStr) in
  {| Remain := if counter then fst rt else Remain st;
     Total := if counter then snd rt else Total st;
     Speed :=
       if matcher.Match speedMatcher logStr
       then getTaskSpeed (matcher.ExtractAllStringSubmatch speedMatcher logStr 2)
       else Speed st;
     Progress := if counter then progressOf (fst rt) (snd rt) else Progress st;
     Filename := if isFilename logStr then logStr else Filename st;
     TransferedBytes := if transfered then fst bp else TransferedBytes st;
     TransferedPercent := if transfered then snd bp else TransferedPercent st |}.

(** Vocabulary of the statements about sizes: the power of 1024 that a unit
    stands for, a number multiplied that many times by 1024, and the number
    text as [ParseFloat] receives it. *)
Definition unitPower (unit : string) : nat :=
  if inUnits unit "KB" "K" then 1
  else if inUnits unit "MB" "M" then 2
  else if inUnits unit "GB" "G" then 3
  else if inUnits unit "TB" "T" then 4
  else 0.

Definition scaled (number : float64.t) (power : nat) : float64.t :=
  Nat.iter power (fun x => float64.mul x (float64.ofInt 1024)) number.

Definition cleanNumber (s : string) : string :=
  strings.TrimSpace (strings.ReplaceAll s "," "").

(** Vocabulary of the statements about the progress value. *)
Definition inUnitInterval (x : float64.t) : bool :=
  float64.leb float64.zero x && float64.leb x (float64.ofInt 1).

(** A float that is a number and has the sign [s]. *)
Definition signed (s : bool) (x : float64.t) : Prop :=
  match x with
  | S754_zero s' | S754_infinity s' | S754_finite s' _ _ => s' = s
  | S754_nan => False
  end.


(** ** [Task.Run]: the two drains and the wait *)

(** [Run] takes the two pipes, starts the goroutines [processStdout] and
    [processStderr], adds 2 to the [WaitGroup], calls [rsync.Run] (which
    starts the process and waits for its exit), waits for the group and
    returns the error of [rsync.Run].  Each goroutine ends with the deferred
    [wg.Done ()].  The interleavings of the three threads are the sequences
    of events that [exec] accepts; nothing is assumed about when a drain
    reaches the end of its stream. *)
Module taskrun.

(** An [error]; [nil] is [None]. *)
Definition error : Type := option string.

Inductive goroutine : Type := NotStarted | Draining | Finished.

(** Where [Run] stands: before one of its statements, inside [rsync.Run],
    or after its end. *)
Inductive control : Type :=
| AtStderrPipe
| AtStdoutPipe
| AtGoStdout
| AtGoStderr
| AtAdd
| AtRun
| InRun                    (* the process runs, its exit is awaited *)
| AtWait (err : error)     (* [rsync.Run] gave [err]; before [wg.Wait ()] *)
| AtReturn (err : error)   (* before [return err] *)
| Returned (err : error)   (* returned what [rsync.Run] gave *)
| Failed (err : error)     (* returned the error of a pipe *)
| Panicked.                (* the counter of the group fell below zero *)

Record config : Type := {
  main : control;
  outDrain : goroutine;
  errDrain : goroutine;
  wg : Z
}.

Definition init : config :=
  {| main := AtStderrPipe; outDrain := NotStarted; errDrain := NotStarted;
     wg := 0 |}.

Inductive event : Type :=
| StderrPipe (err : error)
| StdoutPipe (err : error)
| GoStdout
| GoStderr
| Add
| RunStart
| RunExit (err : error)
| Wait
| Return
| DoneStdout               (* [processStdout] ends: [wg.Done ()] *)
| DoneStderr.              (* [processStderr] ends: [wg.Done ()] *)

Definition moveTo (c : config) (m : control) : config :=
  {| main := m; outDrain := outDrain c; errDrain := errDrain c; wg := wg c |}.

(** [wg.Done ()]: the counter goes down by one, and the program panics
    when it becomes negative. *)
Definition done (c : config) (out err : goroutine) : config :=
  let n := (wg c - 1)%Z in
  {| main := if (n <? 0)%Z then Panicked else main c;
     outDrain := out; errDrain := err; wg := n |}.

(** One step; [None] when the event cannot happen in [c]. *)
Definition step (ev : event) (c : config) : option config :=
  match ev, main c with
  | StderrPipe None, AtStderrPipe => Some (moveTo c AtStdoutPipe)
  | StderrPipe (Some e), AtStderrPipe => Some (moveTo c (Failed (Some e)))
  | StdoutPipe None, AtStdoutPipe => Some (moveTo c AtGoStdout)
  | StdoutPipe (Some e), AtStdoutPipe => Some (moveTo c (Failed (Some e)))
  | GoStdout, AtGoStdout =>
      Some {| main := AtGoStderr; outDrain := Draining;
              errDrain := errDrain c; wg := wg c |}
  | GoStderr, AtGoStderr =>
      Some {| main := AtAdd; outDrain := outDrain c;
              errDrain := Draining; wg := wg c |}
  | Add, AtAdd =>
      Some {| main := AtRun; outDrain := outDrain c;
              errDrain := errDrain c; wg := (wg c + 2)%Z |}
  | RunStart, AtRun => Some (moveTo c InRun)
  | RunExit err, InRun => Some (moveTo c (AtWait err))
  | Wait, AtWait err =>
      if (wg c =? 0)%Z then Some (moveTo c (AtReturn err)) else None
  | Return, AtReturn err => Some (moveTo c (Returned err))
  | DoneStdout, Panicked | DoneStderr, Panicked => None
  | DoneStdout, _ =>
      match outDrain c with
      | Draining => Some (done c Finished (errDrain c))
      | _ => None
      end
  | DoneStderr, _ =>
      match errDrain c with
      | Draining => Some (done c (outDrain c) Finished)
      | _ => None
      end
  | _, _ => None
  end.

Fixpoint exec (evs : list event) (c : config) : option config :=
  match evs with
  | [] => Some c
  | ev :: evs' =>
      match step ev c with
      | Some c' => exec evs' c'
      | None => None
      end
  end.

(** [Run] is inside [rsync.Run] or beyond: the exit of the process is or
    has been awaited. *)
Definition exitAwaited (m : control) : bool :=
  match m with
  | InRun | AtWait _ | AtReturn _ | Returned _ => true
  | _ => false
  end.

Definition started (g : goroutine) : bool :=
  match g with NotStarted => false | _ => true end.

Definition finished (g : goroutine) : bool :=
  match g with Finished => true | _ => false end.

(** The rank of a statement of [Run] in program order. *)
Definition rank (m : control) : nat :=
  match m with
  | AtStderrPipe => 0 | AtStdoutPipe => 1 | AtGoStdout => 2 | AtGoStderr => 3
  | AtAdd => 4 | AtRun => 5 | InRun => 6 | AtWait _ => 7 | AtReturn _ => 8
  | Returned _ => 9 | Failed _ => 0 | Panicked => 0
  end.

Definition pending (g : goroutine) : Z :=
  match g with Finished => 1%Z | _ => 0%Z end.

(** What every reachable configuration satisfies. *)
Definition invariant (c : config) : Prop :=
  match main c with
  | Panicked => True
  | Failed _ => outDrain c = NotStarted /\ errDrain c = NotStarted
  | m =>
      (started (outDrain c) = (2 <? rank m)%nat)
      /\ (started (errDrain c) = (3 <? rank m)%nat)
      /\ wg c = ((if (4 <? rank m)%nat then 2 else 0)
                 - pending (outDrain c) - pending (errDrain c))%Z
      /\ ((7 <? rank m)%nat = true ->
          outDrain c = Finished /\ errDrain c = Finished)
  end.

(** [Run] has not passed the two pipes, or has failed on one. *)
Definition early (m : control) : bool :=
  match m with
  | AtStderrPipe | AtStdoutPipe | Failed _ => true
  | _ => false
  end.


(** [Run] has returned. *)
Definition returned (m : control) : bool :=
  match m with
  | Returned _ | Failed _ => true
  | _ => false
  end.

(** A way to the end of [Run] from [c]: [Run] goes on to the exit of the
    process (taken here without error), the drains that have not ended
    end, and [Run] passes the wait and returns. *)
Definition completion (c : config) : list event :=
  let toExit :=
    match main c with
    | AtStderrPipe =>
        [StderrPipe None; StdoutPipe None; GoStdout; GoStderr; Add;
         RunStart; RunExit None]
    | AtStdoutPipe =>
        [StdoutPipe None; GoStdout; GoStderr; Add; RunStart; RunExit None]
    | AtGoStdout => [GoStdout; GoStderr; Add; RunStart; RunExit None]
    | AtGoStderr => [GoStderr; Add; RunStart; RunExit None]
    | AtAdd => [Add; RunStart; RunExit None]
    | AtRun => [RunStart; RunExit None]
    | InRun => [RunExit None]
    | _ => []
    end in
  let ends :=
    match main c with
    | AtReturn _ | Returned _ | Failed _ | Panicked => []
    | _ =>
        (if finished (outDrain c) then [] else [DoneStdout])
        ++ (if finished (errDrain c) then [] else [DoneStderr])
    end%list in
  let toReturn :=
    match main c with
    | Returned _ | Failed _ | Panicked => []
    | AtReturn _ => [Return]
    | _ => [Wait; Return]
    end in
  (toExit ++ ends ++ toReturn)%list.

End taskrun.

(** ** The loop of the scanner *)

Module bufio.

(** [MaxScanTokenSize = 64 * 1024], the size up to which the buffer of a
    scanner made by [NewScanner] grows. *)
Definition MaxScanTokenSize : nat := 64 * 1024.

Section Scanner.

(** The split function set with [scanner.Split]. *)
Variable split : string -> bool -> nat * option string.

(** [for scanner.Scan ()] over a reader of which the successive reads give
    the pieces [chunks] before it reports the end of the input.  [buf] is
    what the scanner holds and has not consumed, [atEOF] whether the end has
    been seen.  As in [Scanner.Scan]: the split function is applied to a
    buffer that is not empty, and to any buffer after the end; an advance
    beyond the buffer stops the scan with [ErrAdvanceTooFar]; a token is
    handed to the loop body; without a token the scan stops after the end,
    stops with [ErrTooLong] if the buffer is full at its largest size, and
    reads otherwise.  The result lists the tokens in the order of the
    iterations.  A read may give less than there is room for, so that every
    run of the scanner is the run on some [chunks]; a reader that gives
    nothing a hundred times in a row, which a pipe does not, is left out. *)
Fixpoint scan (fuel : nat) (buf : string) (chunks : list string)
    (atEOF : bool) : list string :=
  match fuel with
  | O => []
  | S fuel' =>
      let '(advance, token) :=
        if (0 <? length buf)%nat || atEOF then split buf atEOF
        else (O, None) in
      if (length buf <? advance)%nat then []
      else
        let buf := sliceFrom advance buf in
        match token with
        | Some tok => tok :: scan fuel' buf chunks atEOF
        | None =>
            if atEOF then []
            else if (MaxScanTokenSize <=? length buf)%nat then []
            else
              match chunks with
              | chunk :: chunks' => scan fuel' (buf ++ chunk) chunks' false
              | [] => scan fuel' buf [] true
              end
        end
  end.

End Scanner.

End bufio.

(** The input as a whole. *)
Definition joined (chunks : list string) : string :=
  fold_right append EmptyString chunks.

(** The lines that the loop of [processStdout] sees when the reads of the
    pipe give [chunks].  A round of the scanner takes a byte of the buffer,
    a chunk, or the end of the input, which bounds the rounds. *)
Definition scanLines (chunks : list string) : list string :=
  bufio.scan scanProgressLines
    (3 + List.length chunks + length (joined chunks)) EmptyString chunks false.

(** Lines with the terminator ([\r] or [\n]) of each, followed by a last
    line without terminator, as one stream of bytes. *)
Fixpoint stream (ls : list (string * ascii)) (last : string) : string :=
  match ls with
  | [] => last
  | (l, t) :: ls' => l ++ String t (stream ls' last)
  end.

(** Lines that hold no terminator and fit the buffer of the scanner, each
    ended by [\r] or [\n], where no empty line ended by [\n] follows a line
    ended by [\r] (the two would read as a single [\r\n]); [prev] is the
    terminator before the first line. *)
Fixpoint wellFormed (prev : ascii) (ls : list (string * ascii)) : Prop :=
  match ls with
  | [] => True
  | (l, t) :: ls' =>
      noDelimiter l
      /\ (length l < bufio.MaxScanTokenSize)%nat
      /\ (t = CR \/ t = LF)
      /\ ~ (prev = CR /\ l = EmptyString /\ t = LF)
      /\ wellFormed t ls'
  end.

(** Every line followed by the terminator [term], one after the other. *)
Definition terminated (term : string) (lines : list string) : string :=
  fold_right (fun l rest => l ++ term ++ rest) EmptyString lines.

Definition CRLF : string := String CR (String LF EmptyString).

(** ** The two drains side by side *)

(** [Run] starts [processStdout] and [processStderr] as two goroutines on
    the same task.  A step of their joint run is one round of either loop:
    [inl l] is a round of [processStdout] on the line [l], [inr l] a round
    of [processStderr] on the line [l]. *)
Definition drainStep (task : Task) (round : string + string) : Task :=
  match round with
  | inl l => processStdout task [l]
  | inr l => processStderr task [l]
  end.

Definition drains (task : Task) (rounds : list (string + string)) : Task :=
  fold_left drainStep rounds task.

(** The lines of either stream among the rounds, in their order. *)
Fixpoint stdoutLines (rounds : list (string + string)) : list string :=
  match rounds with
  | [] => []
  | inl l :: rounds' => l :: stdoutLines rounds'
  | inr _ :: rounds' => stdoutLines rounds'
  end.

Fixpoint stderrLines (rounds : list (string + string)) : list string :=
  match rounds with
  | [] => []
  | inl _ :: rounds' => stderrLines rounds'
  | inr l :: rounds' => l :: stderrLines rounds'
  end.

(** An infinity. *)
Definition infinite (x : float64.t) : bool :=
  match x with S754_infinity _ => true | _ => false end.

(** A text that starts with a digit and ends with [/s]. *)
Definition speedShaped (s : string) : bool :=
  match s with
  | String c _ => isDigit c && strings.HasSuffix s "/s"
  | EmptyString => false
  end.

(* ================================================================== *)
(** * Verification *)

(** ** Strings *)

Lemma length_app (a b : string) : length (a ++ b) = (length a + length b)%nat.
Proof. induction a as [|c a IH]; simpl; [reflexivity | now rewrite IH]. Qed.

Lemma app_assoc_s (a b c : string) : (a ++ b) ++ c = a ++ (b ++ c).
Proof. induction a as [|x a IH]; simpl; [reflexivity | now rewrite IH]. Qed.

Lemma app_empty_r (a : string) : a ++ EmptyString = a.
Proof. induction a as [|x a IH]; simpl; [reflexivity | now rewrite IH]. Qed.

Lemma sliceTo_app (a b : string) : sliceTo (length a) (a ++ b) = a.
Proof. induction a as [|c a IH]; simpl; [now destruct b | now rewrite IH]. Qed.

Lemma sliceFrom_app (a b : string) : sliceFrom (length a) (a ++ b) = b.
Proof. induction a as [|c a IH]; simpl; [reflexivity | exact IH]. Qed.

Lemma slice_sliceTo (s : string) (n : nat) : slice s 0 n = sliceTo n s.
Proof. unfold slice. now rewrite Nat.sub_0_r. Qed.

Lemma sliceTo_sliceFrom (n : nat) (s : string) : sliceTo n s ++ sliceFrom n s = s.
Proof.
  revert s; induction n as [|n IH]; intros [|c s]; simpl; try reflexivity.
  now rewrite IH.
Qed.

Lemma get_app_length (a : string) (c : ascii) (b : string) :
  get (length a) (a ++ String c b) = Some c.
Proof. induction a as [|d a IH]; simpl; [reflexivity | exact IH]. Qed.

Lemma noDelimiter_cons (c : ascii) (s : string) :
  noDelimiter (String c s) -> (c <> CR /\ c <> LF) /\ noDelimiter s.
Proof.
  intros H; split.
  - apply H; simpl; now left.
  - intros d Hd; apply H; simpl; now right.
Qed.

Lemma elem_delim (c : ascii) :
  elem c (String CR (String LF EmptyString)) = true <-> c = CR \/ c = LF.
Proof.
  simpl. rewrite !orb_true_iff, !Ascii.eqb_eq. intuition discriminate.
Qed.

Lemma IndexAny_noDelimiter (s : string) :
  noDelimiter s -> bytes.IndexAny s (String CR (String LF EmptyString)) = None.
Proof.
  induction s as [|c s IH]; intros H; [reflexivity|].
  apply noDelimiter_cons in H as [[Hr Hn] Hs].
  cbn [bytes.IndexAny].
  destruct (elem c _) eqn:E.
  - apply elem_delim in E; tauto.
  - now rewrite IH.
Qed.

Lemma IndexAny_first (pre : string) (c : ascii) (rest : string) :
  noDelimiter pre -> c = CR \/ c = LF ->
  bytes.IndexAny (pre ++ String c rest) (String CR (String LF EmptyString))
  = Some (length pre).
Proof.
  induction pre as [|d pre IH]; intros H Hc.
  - cbn [append bytes.IndexAny length].
    apply elem_delim in Hc. now rewrite Hc.
  - apply noDelimiter_cons in H as [[Hr Hn] Hs].
    cbn [append bytes.IndexAny length].
    destruct (elem d _) eqn:E.
    + apply elem_delim in E; tauto.
    + now rewrite IH.
Qed.

(** ** The line splitter *)

Lemma scan_delimited (pre : string) (c : ascii) (rest : string) (atEOF : bool) :
  noDelimiter pre -> c = CR \/ c = LF ->
  scanProgressLines (pre ++ String c rest) atEOF
  = ((if Ascii.eqb c LF then length pre + 1
      else match rest with
           | String d _ => if Ascii.eqb d LF then length pre + 2 else length pre + 1
           | EmptyString => length pre + 1
           end)%nat,
     Some pre).
Proof.
  intros Hpre Hc. unfold scanProgressLines.
  assert (Hlen : (length (pre ++ String c rest) =? 0)%nat = false).
  { rewrite length_app; simpl. apply Nat.eqb_neq; lia. }
  rewrite Hlen, andb_false_r, (IndexAny_first _ _ _ Hpre Hc).
  rewrite get_app_length, slice_sliceTo, sliceTo_app.
  destruct (Ascii.eqb c LF) eqn:E; [reflexivity|].
  replace (length pre + 1)%nat with (length (pre ++ String c EmptyString))
    by (rewrite length_app; reflexivity).
  replace (pre ++ String c rest) with ((pre ++ String c EmptyString) ++ rest)
    by (now rewrite app_assoc_s).
  destruct rest as [|d rest].
  - rewrite app_empty_r, Nat.ltb_irrefl. reflexivity.
  - rewrite get_app_length.
    assert (Hlt : (length (pre ++ String c "")
                   <? length ((pre ++ String c "") ++ String d rest))%nat = true).
    { apply Nat.ltb_lt. rewrite (length_app (pre ++ String c "")); simpl; lia. }
    rewrite Hlt. cbn [andb].
    rewrite length_app; simpl.
    destruct (Ascii.eqb d LF); f_equal; lia.
Qed.

(** C5, as the claim words its third case: without a delimiter and at the
    end of input every remaining byte sequence is yielded as a line.  The
    empty sequence is not: the splitter returns no token for it. *)
Lemma scanProgressLines_final_line_empty_counterexample :
  ~ (forall data : string,
        noDelimiter data ->
        scanProgressLines data true = (length data, Some data)).
Proof.
  intros H. specialize (H EmptyString).
  assert (Hn : noDelimiter EmptyString) by (intros c []).
  specialize (H Hn). discriminate H.
Qed.

(** C5 (amended): the bytes before a first ['\n'] are the line and the
    ['\n'] is consumed; before a first ['\r'] likewise, together with a
    ['\n'] that follows it at once; without a delimiter a non-empty rest is
    the final line at the end of input, the empty rest gives no line, and
    before the end of input more data is requested. *)
Theorem scanProgressLines_spec (pre rest : string) (atEOF : bool) :
  noDelimiter pre ->
  scanProgressLines (pre ++ String LF rest) atEOF = ((length pre + 1)%nat, Some pre)
  /\ scanProgressLines (pre ++ String CR (String LF rest)) atEOF
     = ((length pre + 2)%nat, Some pre)
  /\ (forall d rest', rest = String d rest' -> d <> LF ->
      scanProgressLines (pre ++ String CR rest) atEOF
      = ((length pre + 1)%nat, Some pre))
  /\ scanProgressLines (pre ++ String CR EmptyString) atEOF
     = ((length pre + 1)%nat, Some pre)
  /\ (pre <> EmptyString ->
      scanProgressLines pre true = (length pre, Some pre))
  /\ scanProgressLines EmptyString true = (O, None)
  /\ scanProgressLines pre false = (O, None).
Proof.
  intros Hpre. repeat split.
  - rewrite (scan_delimited pre LF rest atEOF Hpre (or_intror eq_refl)).
    reflexivity.
  - rewrite (scan_delimited pre CR _ atEOF Hpre (or_introl eq_refl)).
    reflexivity.
  - intros d rest' -> Hd.
    rewrite (scan_delimited pre CR _ atEOF Hpre (or_introl eq_refl)).
    apply Ascii.eqb_neq in Hd. cbn. now rewrite Hd.
  - rewrite (scan_delimited pre CR _ atEOF Hpre (or_introl eq_refl)).
    reflexivity.
  - intros Hne. unfold scanProgressLines.
    destruct pre as [|c pre]; [congruence|].
    cbn [length Nat.eqb andb].
    now rewrite (IndexAny_noDelimiter _ Hpre).
  - unfold scanProgressLines. cbn [andb].
    now rewrite (IndexAny_noDelimiter _ Hpre).
Qed.

Lemma scanProgressLines_spec_witness :
  scanProgressLines ("12%" ++ String CR (String LF "34%")) false
  = (5%nat, Some "12%").
Proof.
  refine (proj1 (proj2 (scanProgressLines_spec "12%" "34%" false _))).
  intros c Hc; simpl in Hc.
  repeat (destruct Hc as [<- | Hc]; [split; discriminate|]).
  destruct Hc.
Defined.

(** ** Decimal numerals and [Atoi] *)

Lemma byteZ_range (c : ascii) : (0 <= byteZ c < 256)%Z.
Proof.
  unfold byteZ. pose proof (N_ascii_bounded c) as H.
  split; [apply N2Z.is_nonneg|].
  change 256%Z with (Z.of_N 256). now apply N2Z.inj_lt.
Qed.

Lemma isDigit_digitVal (c : ascii) :
  isDigit c = true -> (0 <= strconv.digitVal c <= 9)%Z.
Proof. unfold isDigit, strconv.digitVal. lia. Qed.

Lemma allDigits_cons (c : ascii) (s : string) :
  allDigits (String c s) = isDigit c && allDigits s.
Proof. reflexivity. Qed.

Lemma decimalFrom_ge (s : string) :
  forall acc, allDigits s = true -> (0 <= acc)%Z ->
  (acc <= strconv.decimalFrom acc s)%Z.
Proof.
  induction s as [|c s IH]; intros acc Hd Hacc; simpl; [lia|].
  rewrite allDigits_cons in Hd. apply andb_prop in Hd as [Hc Hs].
  apply isDigit_digitVal in Hc.
  specialize (IH (acc * 10 + strconv.digitVal c)%Z Hs). lia.
Qed.

Lemma atoi_byte (c : ascii) :
  isDigit c = true ->
  ((byteZ c - 48) mod 256 = strconv.digitVal c)%Z.
Proof.
  intros H. pose proof (isDigit_digitVal c H). unfold strconv.digitVal in *.
  apply Z.mod_small. lia.
Qed.

Lemma atoi_byte_bad (c : ascii) :
  isDigit c = false -> (9 <? (byteZ c - 48) mod 256)%Z = true.
Proof.
  intros H. pose proof (byteZ_range c) as R. unfold isDigit in H.
  apply Z.ltb_lt.
  destruct (Z_lt_ge_dec (byteZ c) 48) as [L|L].
  - replace ((byteZ c - 48) mod 256)%Z with (byteZ c - 48 + 256)%Z; [lia|].
    apply Z.mod_unique with (q := (-1)%Z); lia.
  - rewrite Z.mod_small by lia. lia.
Qed.

Lemma atoiLoop_digits (s : string) :
  forall n, allDigits s = true ->
  strconv.atoiLoop s n = Some (strconv.decimalFrom n s).
Proof.
  induction s as [|c s IH]; intros n Hd; [reflexivity|].
  rewrite allDigits_cons in Hd. apply andb_prop in Hd as [Hc Hs].
  cbn [strconv.atoiLoop strconv.decimalFrom].
  rewrite (atoi_byte c Hc).
  pose proof (isDigit_digitVal c Hc).
  replace (9 <? strconv.digitVal c)%Z with false by (symmetry; apply Z.ltb_ge; lia).
  now apply IH.
Qed.

Lemma atoiLoop_bad (s : string) :
  forall n, allDigits s = false -> strconv.atoiLoop s n = None.
Proof.
  induction s as [|c s IH]; intros n Hd; [discriminate|].
  rewrite allDigits_cons in Hd. cbn [strconv.atoiLoop].
  destruct (isDigit c) eqn:Hc.
  - rewrite (atoi_byte c Hc). pose proof (isDigit_digitVal c Hc).
    replace (9 <? strconv.digitVal c)%Z with false
      by (symmetry; apply Z.ltb_ge; lia).
    apply IH. exact Hd.
  - now rewrite (atoi_byte_bad c Hc).
Qed.

Lemma pow64 : (2 ^ 64 = 18446744073709551616)%Z.
Proof. reflexivity. Qed.

Lemma parseUint_step (n d : Z) :
  (0 <= n)%Z -> (0 <= d <= 9)%Z -> (n * 10 + d <= strconv.maxUint64)%Z ->
  (strconv.maxUint64 / 10 + 1 <=? n)%Z = false
  /\ ((n * 10) mod 2 ^ 64 = n * 10)%Z
  /\ (((n * 10) + d) mod 2 ^ 64 = n * 10 + d)%Z.
Proof.
  unfold strconv.maxUint64. rewrite pow64. intros Hn Hd Hle.
  change ((18446744073709551616 - 1) / 10 + 1)%Z with 1844674407370955162%Z.
  repeat split.
  - apply Z.leb_gt. lia.
  - apply Z.mod_small. lia.
  - apply Z.mod_small. lia.
Qed.

Lemma parseUintLoop_digits (s : string) :
  forall n, allDigits s = true -> (0 <= n)%Z ->
  (strconv.decimalFrom n s <= strconv.maxUint64)%Z ->
  strconv.parseUintLoop s n = (strconv.decimalFrom n s, None).
Proof.
  induction s as [|c s IH]; intros n Hd Hn Hle; [reflexivity|].
  rewrite allDigits_cons in Hd. apply andb_prop in Hd as [Hc Hs].
  pose proof (isDigit_digitVal c Hc) as Hv.
  cbn [strconv.decimalFrom] in Hle.
  assert (Hstep : (n * 10 + strconv.digitVal c <= strconv.maxUint64)%Z).
  { pose proof (decimalFrom_ge s (n * 10 + strconv.digitVal c)%Z Hs). lia. }
  destruct (parseUint_step n _ Hn Hv Hstep) as (H1 & H2 & H3).
  cbn [strconv.parseUintLoop strconv.decimalFrom]. rewrite Hc.
  cbv zeta. rewrite H1, H2, H3.
  replace (n * 10 + strconv.digitVal c <? n * 10)%Z with false
    by (symmetry; apply Z.ltb_ge; lia).
  replace (2 ^ strconv.intSize - 1 <? n * 10 + strconv.digitVal c)%Z with false
    by (symmetry; apply Z.ltb_ge; exact Hstep).
  cbn [orb]. apply IH; [exact Hs | lia | exact Hle].
Qed.

(** The loop meets a byte that is no digit before it leaves the range. *)
Lemma parseUintLoop_bad (s : string) :
  forall n, allDigits s = false -> (0 <= n)%Z ->
  (strconv.decimalFrom n (digitRun s) <= strconv.maxUint64)%Z ->
  strconv.parseUintLoop s n = (0%Z, Some strconv.ErrSyntax).
Proof.
  induction s as [|c s IH]; intros n Hd Hn Hle; [discriminate|].
  rewrite allDigits_cons in Hd.
  cbn [strconv.parseUintLoop digitRun] in *.
  destruct (isDigit c) eqn:Hc; [|reflexivity].
  cbn [andb] in Hd. cbn [strconv.decimalFrom] in Hle.
  pose proof (isDigit_digitVal c Hc) as Hv.
  assert (Hrun : allDigits (digitRun s) = true).
  { clear. induction s as [|x s IH]; [reflexivity|]. simpl.
    destruct (isDigit x) eqn:E; [|reflexivity].
    rewrite allDigits_cons, E. exact IH. }
  assert (Hstep : (n * 10 + strconv.digitVal c <= strconv.maxUint64)%Z).
  { pose proof (decimalFrom_ge _ (n * 10 + strconv.digitVal c)%Z Hrun). lia. }
  destruct (parseUint_step n _ Hn Hv Hstep) as (H1 & H2 & H3).
  cbv zeta. rewrite H1, H2, H3.
  replace (n * 10 + strconv.digitVal c <? n * 10)%Z with false
    by (symmetry; apply Z.ltb_ge; lia).
  replace (2 ^ strconv.intSize - 1 <? n * 10 + strconv.digitVal c)%Z with false
    by (symmetry; apply Z.ltb_ge; exact Hstep).
  cbn [orb]. apply IH; [exact Hd | lia | exact Hle].
Qed.

Lemma digit_not_sign (c : ascii) :
  isDigit c = true -> Ascii.eqb c "+" = false /\ Ascii.eqb c "-" = false.
Proof.
  intros H; split; apply Ascii.eqb_neq; intros ->; discriminate H.
Qed.

(** A digit string in the range of [int] is read exactly. *)
Lemma Atoi_digits (s : string) :
  s <> EmptyString -> allDigits s = true ->
  (strconv.decimal s <= maxInt)%Z ->
  strconv.Atoi s = (strconv.decimal s, None).
Proof.
  intros Hne Hd Hle. destruct s as [|c s]; [congruence|].
  pose proof Hd as Hd'. rewrite allDigits_cons in Hd'.
  apply andb_prop in Hd' as [Hc Hs].
  destruct (digit_not_sign c Hc) as [Hp Hm].
  unfold strconv.Atoi.
  destruct ((0 <? length (String c s)) && (length (String c s) <? 19))%nat.
  - rewrite Hp, Hm. cbn [orb andb].
    now rewrite (atoiLoop_digits _ 0%Z Hd).
  - unfold strconv.ParseInt. rewrite Hp, Hm. cbn [orb].
    unfold strconv.ParseUint.
    assert (H0 : (0 <= strconv.decimal (String c s))%Z).
    { apply (decimalFrom_ge _ 0%Z Hd). lia. }
    unfold maxInt in Hle.
    rewrite (parseUintLoop_digits _ 0%Z Hd) by
      (try lia; unfold strconv.maxUint64, strconv.decimal in *; lia).
    fold (strconv.decimal (String c s)).
    change (2 ^ (strconv.intSize - 1))%Z with (2 ^ 63)%Z.
    cbn [negb andb].
    replace (2 ^ 63 <=? strconv.decimal (String c s))%Z with false
      by (symmetry; apply Z.leb_gt; lia).
    reflexivity.
Qed.

(** Anything that is no numeral reads as zero, as long as its leading
    digits stay below [2^64]. *)
Lemma Atoi_not_numeral (s : string) :
  isNumeral s = false ->
  (strconv.decimal (digitRun (dropSign s)) <= strconv.maxUint64)%Z ->
  fst (strconv.Atoi s) = 0%Z.
Proof.
  intros Hn Hle. destruct s as [|c s]; [reflexivity|].
  unfold isNumeral in Hn. unfold dropSign in Hle.
  unfold strconv.Atoi, strconv.ParseInt, strconv.ParseUint.
  destruct ((0 <? length (String c s)) && (length (String c s) <? 19))%nat;
    destruct (Ascii.eqb c "+") eqn:Hp; destruct (Ascii.eqb c "-") eqn:Hm;
    cbn [orb andb negb] in *;
    try (destruct s as [|d s]; [reflexivity|];
         cbn [String.eqb negb andb] in Hn; cbn [length Nat.ltb Nat.leb]);
    try (now rewrite (atoiLoop_bad _ 0%Z Hn));
    now rewrite (parseUintLoop_bad _ 0%Z Hn (Z.le_refl 0) Hle).
Qed.

(** ** Prefixes, suffixes, substrings and splitting *)

Lemma HasPrefix_iff (s pre : string) :
  strings.HasPrefix s pre = true <-> exists rest, s = pre ++ rest.
Proof.
  unfold strings.HasPrefix. rewrite andb_true_iff, Nat.leb_le, String.eqb_eq.
  split.
  - intros [_ H]. exists (sliceFrom (length pre) s).
    rewrite <- H at 1. symmetry. apply sliceTo_sliceFrom.
  - intros [rest ->]. rewrite length_app, sliceTo_app. split; [lia | reflexivity].
Qed.

Lemma HasSuffix_iff (s suf : string) :
  strings.HasSuffix s suf = true <-> exists front, s = front ++ suf.
Proof.
  unfold strings.HasSuffix. rewrite andb_true_iff, Nat.leb_le, String.eqb_eq.
  split.
  - intros [_ H]. exists (sliceTo (length s - length suf) s).
    rewrite <- H at 2. symmetry. apply sliceTo_sliceFrom.
  - intros [front ->]. rewrite length_app.
    replace (length front + length suf - length suf)%nat with (length front) by lia.
    rewrite sliceFrom_app. split; [lia | reflexivity].
Qed.

Lemma Contains_iff (s sub : string) :
  strings.Contains s sub = true <-> exists a b, s = a ++ sub ++ b.
Proof.
  induction s as [|c s IH].
  - cbn [strings.Contains]. rewrite orb_false_r, HasPrefix_iff. split.
    + intros [rest H]. now exists EmptyString, rest.
    + intros [[|x a] [b H]]; [now exists b | discriminate H].
  - cbn [strings.Contains]. rewrite orb_true_iff, HasPrefix_iff, IH. split.
    + intros [[rest H] | (a & b & H)].
      * now exists EmptyString, rest.
      * exists (String c a), b. simpl. now rewrite H.
    + intros ([|x a] & b & H).
      * left. now exists b.
      * right. simpl in H. injection H as _ H. now exists a, b.
Qed.

Lemma HasPrefix_byte (c d : ascii) (s : string) :
  strings.HasPrefix (String c s) (String d EmptyString) = Ascii.eqb c d.
Proof.
  unfold strings.HasPrefix. cbn [length Nat.leb sliceTo andb String.eqb].
  now destruct (Ascii.eqb c d).
Qed.

Lemma noByte_cons (d c : ascii) (s : string) :
  noByte d (String c s) <-> c <> d /\ noByte d s.
Proof. unfold noByte. simpl. tauto. Qed.

Lemma splitFrom_none (d : ascii) (s : string) :
  noByte d s -> strings.splitFrom (String d EmptyString) 0 s = [s].
Proof.
  induction s as [|c s IH]; intros H; [reflexivity|].
  apply noByte_cons in H as [Hc Hs].
  cbn [strings.splitFrom]. rewrite HasPrefix_byte.
  apply Ascii.eqb_neq in Hc. rewrite Hc, (IH Hs). reflexivity.
Qed.

Lemma splitFrom_first (d : ascii) (a b : string) :
  noByte d a ->
  strings.splitFrom (String d EmptyString) 0 (a ++ String d b)
  = a :: strings.splitFrom (String d EmptyString) 0 b.
Proof.
  induction a as [|c a IH]; intros H.
  - cbn [append strings.splitFrom]. rewrite HasPrefix_byte, Ascii.eqb_refl.
    reflexivity.
  - apply noByte_cons in H as [Hc Ha].
    cbn [append strings.splitFrom]. rewrite HasPrefix_byte.
    apply Ascii.eqb_neq in Hc. rewrite Hc, (IH Ha). reflexivity.
Qed.

Lemma allDigits_noByte (d : ascii) (s : string) :
  isDigit d = false -> allDigits s = true -> noByte d s.
Proof.
  intros Hd. induction s as [|c s IH]; intros H; [intros []|].
  rewrite allDigits_cons in H. apply andb_prop in H as [Hc Hs].
  apply noByte_cons. split; [congruence | auto].
Qed.

(** ** The counter decoder *)

Lemma getTaskProgress_halves (a b : string) :
  noByte "/" a -> noByte "/" b ->
  getTaskProgress (a ++ "/" ++ b)
  = (fst (strconv.Atoi a), fst (strconv.Atoi b)).
Proof.
  intros Ha Hb. unfold getTaskProgress, strings.Split.
  change ("/" ++ b) with (String "/" b).
  rewrite (splitFrom_first "/" a b Ha), (splitFrom_none "/" b Hb).
  reflexivity.
Qed.

(** C6, as worded: every capture with two numeric halves gives back the
    two integers.  A half beyond the range of [int] is not given back: it
    saturates. *)
Lemma getTaskProgress_exact_counterexample :
  allDigits "99999999999999999999" = true
  /\ allDigits "1" = true
  /\ getTaskProgress "99999999999999999999/1"
     <> (strconv.decimal "99999999999999999999", strconv.decimal "1").
Proof.
  split; [vm_compute; reflexivity|]. split; [vm_compute; reflexivity|].
  intros H. vm_compute in H. discriminate H.
Qed.

(** C6 (amended): two halves of digits, each at most [2^63 - 1], are
    returned exactly, ["999/9999"] giving [(999, 9999)]; a capture without
    ['/'] gives [(0, 0)]; a half that is no numeral counts as [0], as long as
    the digits it starts with stay below [2^64]. *)
Theorem getTaskProgress_spec :
  (forall r t : string,
      r <> EmptyString -> t <> EmptyString ->
      allDigits r = true -> allDigits t = true ->
      (strconv.decimal r <= maxInt)%Z -> (strconv.decimal t <= maxInt)%Z ->
      getTaskProgress (r ++ "/" ++ t) = (strconv.decimal r, strconv.decimal t))
  /\ getTaskProgress "999/9999" = (999%Z, 9999%Z)
  /\ (forall s : string, noByte "/" s -> getTaskProgress s = (0%Z, 0%Z))
  /\ (forall a b : string,
         noByte "/" a -> noByte "/" b -> isNumeral a = false ->
         (strconv.decimal (digitRun (dropSign a)) <= strconv.maxUint64)%Z ->
         fst (getTaskProgress (a ++ "/" ++ b)) = 0%Z
         /\ snd (getTaskProgress (b ++ "/" ++ a)) = 0%Z).
Proof.
  repeat split.
  - intros r t Hr Ht Dr Dt Lr Lt.
    rewrite getTaskProgress_halves
      by (apply allDigits_noByte; [reflexivity | assumption]).
    now rewrite (Atoi_digits r), (Atoi_digits t).
  - intros s Hs. unfold getTaskProgress, strings.Split.
    now rewrite (splitFrom_none "/" s Hs).
  - rewrite getTaskProgress_halves by assumption.
    now apply Atoi_not_numeral.
  - rewrite getTaskProgress_halves by assumption.
    now apply Atoi_not_numeral.
Qed.

Lemma getTaskProgress_spec_witness :
  getTaskProgress ("1113" ++ "/" ++ "10003") = (1113%Z, 10003%Z)
  /\ getTaskProgress "12.34" = (0%Z, 0%Z)
  /\ fst (getTaskProgress ("1x" ++ "/" ++ "7")) = 0%Z.
Proof.
  destruct getTaskProgress_spec as (Hnum & _ & Hnone & Hbad).
  split; [|split].
  - apply (Hnum "1113" "10003");
      first [discriminate | reflexivity | (unfold maxInt; vm_compute; discriminate)].
  - apply (Hnone "12.34"). unfold noByte. simpl.
    intros H. repeat (destruct H as [H | H]; [discriminate H|]). exact H.
  - apply (Hbad "1x" "7").
    + unfold noByte. simpl.
      intros H. repeat (destruct H as [H | H]; [discriminate H|]). exact H.
    + unfold noByte. simpl.
      intros H. repeat (destruct H as [H | H]; [discriminate H|]). exact H.
    + reflexivity.
    + vm_compute. discriminate.
Defined.

(** ** The filename classifier *)

Lemma isFilename_true_iff (str : string) :
  isFilename str = true
  <-> str <> EmptyString
      /\ strings.HasPrefix str " " = false
      /\ existsb (fun v => strings.Contains str v) verbose = false
      /\ strings.HasPrefix str "sent" = false
      /\ strings.HasSuffix str "/" = false.
Proof.
  unfold isFilename.
  destruct (String.eqb_spec str EmptyString) as [E | E].
  - split; [discriminate | intros [H _]; congruence].
  - destruct (strings.HasPrefix str "      ") eqn:H6.
    + split; [discriminate|]. intros (_ & H1 & _). exfalso.
      apply HasPrefix_iff in H6 as [rest ->].
      assert (H : strings.HasPrefix ("      " ++ rest) " " = true)
        by (apply HasPrefix_iff; now exists ("     " ++ rest)).
      congruence.
    + destruct (strings.HasPrefix str " "),
        (existsb (fun v => strings.Contains str v) verbose),
        (strings.HasPrefix str "sent"), (strings.HasSuffix str "/");
        intuition congruence.
Qed.

(** C7: a line is taken for a filename exactly when it is not empty, does
    not start with a space, contains none of the status texts, does not
    start with ["sent"] and does not end with ["/"]. *)
Theorem isFilename_spec (str : string) :
  (isFilename str = true
   <-> str <> EmptyString
       /\ ~ (exists rest, str = " " ++ rest)
       /\ (forall v, In v verbose -> ~ (exists a b, str = a ++ v ++ b))
       /\ ~ (exists rest, str = "sent" ++ rest)
       /\ ~ (exists front, str = front ++ "/"))
  /\ isFilename "some/path/file.txt" = true
  /\ isFilename "sending incremental file list" = false
  /\ isFilename (" " ++ str) = false
  /\ isFilename ("   " ++ str) = false
  /\ isFilename (str ++ "/") = false.
Proof.
  assert (Hneg : forall b P, (b = true <-> P) -> (b = false <-> ~ P)).
  { intros [|] P HP; split; intros H; try congruence.
    - exfalso. apply H, HP. reflexivity.
    - intros HP'. apply HP in HP'. discriminate. }
  assert (Hverb : forall s,
             existsb (fun v => strings.Contains s v) verbose = false
             <-> (forall v, In v verbose -> ~ (exists a b, s = a ++ v ++ b))).
  { intros s. split.
    - intros E v Hv (a & b & H).
      assert (E' : existsb (fun v => strings.Contains s v) verbose = true).
      { apply existsb_exists. exists v. split; [exact Hv|].
        apply Contains_iff. now exists a, b. }
      congruence.
    - intros H.
      destruct (existsb (fun v => strings.Contains s v) verbose) eqn:E;
        [|reflexivity].
      apply existsb_exists in E as (v & Hv & Hc).
      apply Contains_iff in Hc. exfalso. exact (H v Hv Hc). }
  split; [|repeat split].
  - rewrite isFilename_true_iff, Hverb.
    rewrite (Hneg _ _ (HasPrefix_iff str " ")).
    rewrite (Hneg _ _ (HasPrefix_iff str "sent")).
    rewrite (Hneg _ _ (HasSuffix_iff str "/")).
    reflexivity.
  - destruct (isFilename (" " ++ str)) eqn:E; [|reflexivity].
    apply isFilename_true_iff in E as (_ & H & _).
    apply (Hneg _ _ (HasPrefix_iff _ " ")) in H. exfalso. apply H. now exists str.
  - destruct (isFilename ("   " ++ str)) eqn:E; [|reflexivity].
    apply isFilename_true_iff in E as (_ & H & _).
    apply (Hneg _ _ (HasPrefix_iff _ " ")) in H. exfalso. apply H.
    now exists ("  " ++ str).
  - destruct (isFilename (str ++ "/")) eqn:E; [|reflexivity].
    apply isFilename_true_iff in E as (_ & _ & _ & _ & H).
    apply (Hneg _ _ (HasSuffix_iff _ "/")) in H. exfalso. apply H. now exists str.
Qed.

(** ** The per-line update *)

(** Case analysis on what the matchers and the classifier say of a line;
    what they extract from it is kept abstract. *)
Ltac line_cases logStr :=
  unfold processStdoutLine;
  generalize (matcher.Match progressMatcher logStr),
    (matcher.Match speedMatcher logStr),
    (matcher.Match transferedMatcher logStr), (isFilename logStr),
    (getTaskProgress (matcher.Extract progressMatcher logStr)),
    (getTaskSpeed (matcher.ExtractAllStringSubmatch speedMatcher logStr 2)),
    (getTaskTransfered (matcher.Extract transferedMatcher logStr));
  intros [] [] [] [] [? ?] ? [? ?].

Lemma processStdoutLine_state (task : Task) (logStr : string) :
  state (processStdoutLine task logStr) = lineState logStr (state task).
Proof.
  unfold lineState. line_cases logStr; destruct (state task); reflexivity.
Qed.

Lemma processStdoutLine_Speed (task : Task) (logStr : string) :
  Speed (state (processStdoutLine task logStr))
  = if matcher.Match speedMatcher logStr
    then getTaskSpeed (matcher.ExtractAllStringSubmatch speedMatcher logStr 2)
    else Speed (state task).
Proof. rewrite processStdoutLine_state. reflexivity. Qed.

Lemma processStdoutLine_counter (task : Task) (logStr : string) :
  let st := state (processStdoutLine task logStr) in
  (Remain st, Total st, Progress st)
  = if matcher.Match progressMatcher logStr
    then
      let rt := getTaskProgress (matcher.Extract progressMatcher logStr) in
      (fst rt, snd rt, progressOf (fst rt) (snd rt))
    else (Remain (state task), Total (state task), Progress (state task)).
Proof.
  cbv zeta. rewrite processStdoutLine_state. unfold lineState.
  cbn [Remain Total Progress].
  destruct (matcher.Match progressMatcher logStr); reflexivity.
Qed.

Lemma processStdoutLine_transfered (task : Task) (logStr : string) :
  let st := state (processStdoutLine task logStr) in
  (TransferedBytes st, TransferedPercent st)
  = if matcher.Match transferedMatcher logStr
    then getTaskTransfered (matcher.Extract transferedMatcher logStr)
    else (TransferedBytes (state task), TransferedPercent (state task)).
Proof.
  cbv zeta. rewrite processStdoutLine_state. unfold lineState.
  cbn [TransferedBytes TransferedPercent].
  destruct (matcher.Match transferedMatcher logStr); [|reflexivity].
  now destruct (getTaskTransfered _).
Qed.

(** C8: on the example line the speed matcher yields ["999.99kB/s"], which
    is what the line stores; a line without a match of the speed pattern
    leaves the stored speed as it was. *)
Theorem speed_spec (task : Task) (logStr : string) :
  getTaskSpeed (matcher.ExtractAllStringSubmatch speedMatcher speedLine 2)
  = "999.99kB/s"
  /\ Speed (state (processStdoutLine task speedLine)) = "999.99kB/s"
  /\ (matcher.Match speedMatcher logStr = false ->
      Speed (state (processStdoutLine task logStr)) = Speed (state task)).
Proof.
  split; [vm_compute; reflexivity|]. split.
  - rewrite processStdoutLine_Speed. vm_compute. reflexivity.
  - intros H. rewrite processStdoutLine_Speed, H. reflexivity.
Qed.

Lemma speed_spec_witness :
  Speed (state (processStdoutLine NewTask "sending incremental file list"))
  = EmptyString.
Proof.
  apply (proj2 (proj2 (speed_spec NewTask "sending incremental file list"))).
  vm_compute. reflexivity.
Defined.

(** C9: a line processed a second time leaves every field of the state as
    the first pass left it. *)
Theorem processStdoutLine_idempotent (task : Task) (logStr : string) :
  state (processStdoutLine (processStdoutLine task logStr) logStr)
  = state (processStdoutLine task logStr).
Proof.
  rewrite !processStdoutLine_state. unfold lineState. cbn.
  destruct (matcher.Match progressMatcher logStr),
    (matcher.Match speedMatcher logStr),
    (matcher.Match transferedMatcher logStr), (isFilename logStr);
    reflexivity.
Qed.

(** C10: the counter pattern takes any character but a newline between
    its two runs of digits.  Unless that character is ['/'], the capture
    has no ['/'], [getTaskProgress] gives [(0, 0)], and the line sets the
    stored counters and the progress value to zero, whatever they were. *)
Theorem counter_any_separator (task : Task) (sep : ascii) :
  sep <> LF -> sep <> "/"%char ->
  matcher.Match progressMatcher (counterLine sep) = true
  /\ matcher.Extract progressMatcher (counterLine sep)
     = "12" ++ String sep "34"
  /\ List.length
       (strings.Split (matcher.Extract progressMatcher (counterLine sep)) "/")
     = 1%nat
  /\ Remain (state (processStdoutLine task (counterLine sep))) = 0%Z
  /\ Total (state (processStdoutLine task (counterLine sep))) = 0%Z
  /\ Progress (state (processStdoutLine task (counterLine sep))) = float64.zero.
Proof.
  intros Hnl Hslash.
  assert (H : matcher.Match progressMatcher (counterLine sep) = true
              /\ matcher.Extract progressMatcher (counterLine sep)
                 = "12" ++ String sep "34"
              /\ strings.Split ("12" ++ String sep "34") "/"
                 = ["12" ++ String sep "34"]).
  { destruct sep as [[] [] [] [] [] [] [] []];
      try (exfalso; apply Hnl; reflexivity);
      try (exfalso; apply Hslash; reflexivity);
      vm_compute; repeat split. }
  destruct H as (Hm & He & Hs).
  assert (Hg : getTaskProgress ("12" ++ String sep "34") = (0%Z, 0%Z)).
  { unfold getTaskProgress. rewrite Hs. reflexivity. }
  rewrite !processStdoutLine_state. unfold lineState.
  cbn [Remain Total Progress]. rewrite Hm, He, Hg, Hs.
  repeat split.
Qed.

Lemma counter_any_separator_witness :
  Remain (state (processStdoutLine NewTask "(xfr#9, to-chk=12.34)")) = 0%Z
  /\ Total (state (processStdoutLine NewTask "(xfr#9, to-chk=12.34)")) = 0%Z.
Proof.
  destruct (counter_any_separator NewTask "."%char) as (_ & _ & _ & H1 & H2 & _);
    [discriminate | discriminate |].
  split; [exact H1 | exact H2].
Defined.

(** ** The transferred-size decoder *)

Lemma app_last_inj (a b : string) (x y : ascii) :
  a ++ String x EmptyString = b ++ String y EmptyString -> a = b /\ x = y.
Proof.
  revert b; induction a as [|c a IH]; intros [|d b] H; simpl in H.
  - injection H as ->. now split.
  - injection H as -> H. destruct b; discriminate H.
  - injection H as -> H. destruct a; discriminate H.
  - injection H as -> H. apply IH in H as [-> ->]. now split.
Qed.

Lemma sliceFrom_app_ge (n : nat) (a b : string) :
  (length a <= n)%nat -> sliceFrom n (a ++ b) = sliceFrom (n - length a) b.
Proof.
  revert n; induction a as [|c a IH]; intros n H; simpl in *.
  - now rewrite Nat.sub_0_r.
  - destruct n as [|n]; [lia|]. simpl. apply IH. lia.
Qed.

(** A suffix no longer than [u] is looked for in [u] alone. *)
Lemma HasSuffix_app (body u suf : string) :
  (length suf <= length u)%nat ->
  strings.HasSuffix (body ++ u) suf = strings.HasSuffix u suf.
Proof.
  intros H. unfold strings.HasSuffix. rewrite length_app.
  rewrite sliceFrom_app_ge by lia.
  replace (length body + length u - length suf - length body)%nat
    with (length u - length suf)%nat by lia.
  replace (length suf <=? length body + length u)%nat with true
    by (symmetry; apply Nat.leb_le; lia).
  replace (length suf <=? length u)%nat with true
    by (symmetry; apply Nat.leb_le; lia).
  reflexivity.
Qed.

(** A two-letter suffix needs its last letter. *)
Lemma HasSuffix_last (body : string) (x a y : ascii) :
  x <> y ->
  strings.HasSuffix (body ++ String x EmptyString)
    (String a (String y EmptyString)) = false.
Proof.
  intros Hxy.
  destruct (strings.HasSuffix _ _) eqn:E; [|reflexivity].
  apply HasSuffix_iff in E as [front E].
  change (String a (String y EmptyString))
    with (String a EmptyString ++ String y EmptyString) in E.
  rewrite <- app_assoc_s in E. apply app_last_inj in E as [_ E]. congruence.
Qed.

Lemma sliceTo_app_sub (a b : string) :
  sliceTo (length (a ++ b) - length b) (a ++ b) = a.
Proof.
  rewrite length_app.
  replace (length a + length b - length b)%nat with (length a) by lia.
  apply sliceTo_app.
Qed.

(** Whatever precedes it, a unit at the end of the token is the one that
    the loop finds, and the loop cuts exactly that unit off. *)
Lemma findUnit_units (body u : string) :
  In u units -> findUnit units (body ++ u) (body ++ u) = (u, body).
Proof.
  unfold units. intros H.
  repeat (destruct H as [<- | H]); try destruct H;
    unfold findUnit;
    repeat first
      [ rewrite HasSuffix_last by discriminate
      | rewrite HasSuffix_app by (simpl; lia) ];
    cbn - [sliceTo length append];
    rewrite ?sliceTo_app_sub; reflexivity.
Qed.

Lemma findUnit_none (us : list string) (s : string) :
  (forall u, In u us -> strings.HasSuffix s u = false) ->
  findUnit us s s = (EmptyString, s).
Proof.
  induction us as [|u us IH]; intros H; [reflexivity|].
  cbn [findUnit]. rewrite (H u) by (now left).
  apply IH. intros v Hv. apply H. now right.
Qed.

(** C2, as worded for its third example: the token ["87.65kB"] is said to
    give 89753 bytes.  The units are matched with capital letters only, so
    the token keeps its ["kB"], is no number, and gives 0. *)
Lemma sizeToBytes_lowercase_counterexample :
  sizeToBytes "87.65kB" <> 89753%Z.
Proof. intros H. vm_compute in H. discriminate H. Qed.

(** C2 (amended): a token that ends with one of the units K, KB, M, MB, G,
    GB, T, TB (capital letters) loses that unit, and what is left, without
    commas and surrounding blanks, is read as a number and multiplied by
    1024 once, twice, three or four times; a token without such an end is
    read as it is.  ["123,456"] gives 123456, ["21.90G"] gives 23514945945,
    ["87.65K"] gives 89753 and ["87.65kB"] gives 0; the example line gives
    123456 bytes and 78 percent. *)
Theorem sizeToBytes_spec :
  (forall body u : string,
      In u units ->
      findUnit units (body ++ u) (body ++ u) = (u, body)
      /\ sizeToBytes (body ++ u)
         = float64.toInt64
             (scaled (atof.ParseFloat (cleanNumber body)) (unitPower u)))
  /\ (forall token : string,
         (forall u, In u units -> strings.HasSuffix token u = false) ->
         sizeToBytes token
         = float64.toInt64 (atof.ParseFloat (cleanNumber token)))
  /\ map unitPower units = [1; 1; 2; 2; 3; 3; 4; 4]%nat
  /\ sizeToBytes "123,456" = 123456%Z
  /\ sizeToBytes "21.90G" = 23514945945%Z
  /\ sizeToBytes "87.65K" = 89753%Z
  /\ sizeToBytes "87.65kB" = 0%Z
  /\ getTaskTransfered (matcher.Extract transferedMatcher transferedLine)
     = (123456%Z, 78%Z)
  /\ TransferedBytes (state (processStdoutLine NewTask transferedLine))
     = 123456%Z
  /\ TransferedPercent (state (processStdoutLine NewTask transferedLine))
     = 78%Z.
Proof.
  split; [|split; [|repeat split; vm_compute; reflexivity]].
  - intros body u Hu. split; [now apply findUnit_units|].
    unfold sizeToBytes. rewrite (findUnit_units body u Hu).
    fold (cleanNumber body).
    unfold units in Hu.
    repeat (destruct Hu as [<- | Hu]); try destruct Hu; reflexivity.
  - intros token H. unfold sizeToBytes.
    rewrite (findUnit_none units token H). reflexivity.
Qed.

Lemma sizeToBytes_spec_witness :
  sizeToBytes ("2.39" ++ "G") = 2566242959%Z
  /\ sizeToBytes "1,024" = 1024%Z.
Proof.
  destruct sizeToBytes_spec as (Hunit & Hnone & _).
  split.
  - destruct (Hunit "2.39" "G") as [_ H].
    + unfold units. simpl. tauto.
    + rewrite H. vm_compute. reflexivity.
  - rewrite (Hnone "1,024").
    + vm_compute. reflexivity.
    + intros u Hu. unfold units in Hu.
      repeat (destruct Hu as [<- | Hu]); try destruct Hu; reflexivity.
Defined.

(** ** Rounding keeps the sign *)

Lemma shr_1_nonneg (r : shr_record) :
  (0 <= shr_m r)%Z -> (0 <= shr_m (shr_1 r))%Z.
Proof.
  destruct r as [m rb sb]. destruct m as [|[p|p|]|[p|p|]]; simpl; lia.
Qed.

Lemma iter_shr_1_nonneg (p : positive) :
  forall r, (0 <= shr_m r)%Z -> (0 <= shr_m (iter_pos shr_1 p r))%Z.
Proof.
  induction p as [p IH|p IH|]; intros r H; simpl.
  - apply IH, IH, shr_1_nonneg, H.
  - apply IH, IH, H.
  - apply shr_1_nonneg, H.
Qed.

Lemma shr_fexp_nonneg (m e : Z) (l : location) :
  (0 <= m)%Z ->
  (0 <= shr_m (fst (shr_fexp float64.prec float64.emax m e l)))%Z.
Proof.
  intros H. unfold shr_fexp, shr.
  assert (H0 : (0 <= shr_m (shr_record_of_loc m l))%Z)
    by (destruct l as [|[]]; exact H).
  destruct (_ - e)%Z; simpl; auto using iter_shr_1_nonneg.
Qed.

Lemma round_nearest_even_nonneg (m : Z) (l : location) :
  (0 <= m)%Z -> (0 <= round_nearest_even m l)%Z.
Proof.
  intros H. destruct l as [|[]]; simpl; try lia.
  destruct (Z.even m); lia.
Qed.

Lemma binary_round_aux_signed (s : bool) (m e : Z) (l : location) :
  (0 <= m)%Z ->
  signed s (binary_round_aux float64.prec float64.emax s m e l).
Proof.
  intros H. unfold binary_round_aux.
  pose proof (shr_fexp_nonneg m e l H) as H1.
  destruct (shr_fexp float64.prec float64.emax m e l) as [r1 e1].
  cbn [fst] in H1.
  pose proof (round_nearest_even_nonneg (shr_m r1) (loc_of_shr_record r1) H1)
    as H2.
  pose proof (shr_fexp_nonneg _ e1 loc_Exact H2) as H3.
  destruct (shr_fexp float64.prec float64.emax _ e1 loc_Exact) as [r2 e2].
  cbn [fst] in H3.
  destruct (shr_m r2) as [|p|p]; [reflexivity| |lia].
  destruct (e2 <=? _)%Z; reflexivity.
Qed.

Lemma binary_normalize_signed (m e : Z) (s : bool) :
  signed (if (m =? 0)%Z then s else (m <? 0)%Z)
    (binary_normalize float64.prec float64.emax m e s).
Proof.
  destruct m as [|p|p]; cbn [binary_normalize Z.eqb Z.ltb Z.compare];
    [reflexivity| |]; unfold binary_round;
    destruct (shl_align _ _ _) as [mz ez];
    apply binary_round_aux_signed; lia.
Qed.

Lemma ofInt_not_nan (i : Z) : float64.ofInt i <> S754_nan.
Proof.
  unfold float64.ofInt. pose proof (binary_normalize_signed i 0 false) as H.
  intros E. rewrite E in H. exact H.
Qed.


(** ** The progress value *)

(** The divisor [math.Max (float64 (total), 1)] is a number, and at least
    one. *)
Lemma divisor_ge_one (x : float64.t) :
  x <> S754_nan ->
  float64.leb (float64.ofInt 1) (math.Max x (float64.ofInt 1)) = true.
Proof.
  intros Hx.
  change (float64.ofInt 1) with (S754_finite false 4503599627370496 (-52)).
  destruct x as [s|s| |s m e]; try congruence;
    try (destruct s; reflexivity).
  unfold math.Max.
  {
    destruct (float64.ltb (S754_finite false 4503599627370496 (-52))
                (S754_finite s m e)) eqn:E; [|reflexivity].
    unfold float64.leb, SFleb. unfold float64.ltb, SFltb in E.
    destruct (SFcompare _ _) as [[| |]|]; try discriminate E. reflexivity. }
Qed.

(** C1, as worded: the progress value stored for a counter is in [0, 1].
    On the example line (999 of 9999 left) the stored value is 90.009...:
    the quotient is multiplied by [maxPercents]. *)
Lemma progress_unit_interval_counterexample :
  ~ (forall (task : Task) (logStr : string),
        matcher.Match progressMatcher logStr = true ->
        inUnitInterval (Progress (state (processStdoutLine task logStr)))
        = true).
Proof.
  intros H. specialize (H NewTask speedLine).
  rewrite processStdoutLine_state in H.
  assert (Hm : matcher.Match progressMatcher speedLine = true)
    by (vm_compute; reflexivity).
  specialize (H Hm). vm_compute in H. discriminate H.
Qed.

(** C1 (amended): whenever the counter matcher fires, the stored progress
    is the float64 [(total - remaining) / max (total, 1) * 100] of the
    counters stored with it, a percentage; the divisor is at least 1, so
    that nothing is divided by zero.  For 999 of 9999 left it is
    90.009... (between 90 and 90.01), and for a total of 0 the divisor is 1
    and the progress 0. *)
Theorem progress_spec (task : Task) (logStr : string) :
  (matcher.Match progressMatcher logStr = true ->
   let st := state (processStdoutLine task logStr) in
   let divisor := math.Max (float64.ofInt (Total st)) (float64.ofInt 1) in
   Progress st
   = float64.mul
       (float64.div (float64.ofInt (wrapInt (Total st - Remain st))) divisor)
       (float64.ofInt 100)
   /\ float64.leb (float64.ofInt 1) divisor = true)
  /\ Progress (state (processStdoutLine task speedLine))
     = progressOf 999 9999
  /\ progressOf 999 9999 = S754_finite false 6333820358025562 (-46)
  /\ float64.ltb (float64.ofInt 90) (progressOf 999 9999) = true
  /\ float64.ltb (progressOf 999 9999) (atof.ParseFloat "90.01") = true
  /\ math.Max (float64.ofInt 0) (float64.ofInt 1) = float64.ofInt 1
  /\ progressOf 0 0 = float64.zero.
Proof.
  split; [|split; [|repeat split; vm_compute; reflexivity]].
  - intros Hm. cbv zeta. rewrite processStdoutLine_state. unfold lineState.
    cbn [Progress Remain Total]. rewrite Hm.
    split; [reflexivity|]. apply divisor_ge_one, ofInt_not_nan.
  - rewrite processStdoutLine_state. unfold lineState. cbn [Progress].
    replace (matcher.Match progressMatcher speedLine) with true
      by (vm_compute; reflexivity).
    replace (getTaskProgress (matcher.Extract progressMatcher speedLine))
      with (999%Z, 9999%Z) by (vm_compute; reflexivity).
    reflexivity.
Qed.

Lemma progress_spec_witness :
  Progress (state (processStdoutLine NewTask "(xfr#1, to-chk=3/4)"))
  = float64.mul
      (float64.div (float64.ofInt 1)
         (math.Max (float64.ofInt 4) (float64.ofInt 1)))
      (float64.ofInt 100).
Proof.
  destruct (proj1 (progress_spec NewTask "(xfr#1, to-chk=3/4)")) as [H _].
  - vm_compute. reflexivity.
  - cbv zeta in H. rewrite H. vm_compute. reflexivity.
Defined.

(** ** The sign of a decoded size *)


Lemma In_sliceFrom (c : ascii) (n : nat) (s : string) :
  In c (list_ascii_of_string (sliceFrom n s)) -> In c (list_ascii_of_string s).
Proof.
  revert s; induction n as [|n IH]; intros [|d s]; simpl; try tauto.
  intros H. right. auto.
Qed.
















(** ** [Task.Run] *)

Lemma taskrun_init_invariant : taskrun.invariant taskrun.init.
Proof.
  unfold taskrun.invariant. cbn. repeat split; discriminate.
Qed.

Lemma taskrun_step_invariant (ev : taskrun.event) (c c' : taskrun.config) :
  taskrun.invariant c -> taskrun.step ev c = Some c' -> taskrun.invariant c'.
Proof.
  destruct c as [m o e n]. unfold taskrun.invariant, taskrun.step.
  cbn [taskrun.main taskrun.outDrain taskrun.errDrain taskrun.wg].
  intros I H.
  destruct ev as [[?|]|[?|]| | | | |?| | | |]; destruct m;
    try discriminate H;
    cbn [taskrun.rank Nat.ltb Nat.leb] in I;
    try (destruct o; try discriminate H);
    try (destruct e; try discriminate H);
    try (destruct (n =? 0)%Z eqn:E; [apply Z.eqb_eq in E | discriminate H]);
    injection H as <-;
    unfold taskrun.done, taskrun.moveTo;
    cbn [taskrun.main taskrun.outDrain taskrun.errDrain taskrun.wg
         taskrun.rank Nat.ltb Nat.leb taskrun.started taskrun.pending] in *;
    try (destruct (n - 1 <? 0)%Z eqn:E1; [exact Logic.I|]);
    cbn [taskrun.rank Nat.ltb Nat.leb] in *;
    repeat match goal with
           | H : _ /\ _ |- _ => destruct H
           end;
    try discriminate;
    repeat split; try reflexivity; try assumption; try lia;
    try (intros; discriminate);
    try match goal with
        | H : true = true -> _ |- _ => destruct (H eq_refl); congruence
        end.
Qed.

Lemma taskrun_exec_invariant (evs : list taskrun.event) :
  forall c c', taskrun.invariant c -> taskrun.exec evs c = Some c' ->
  taskrun.invariant c'.
Proof.
  induction evs as [|ev evs IH]; intros c c' I H; simpl in H.
  - injection H as <-. exact I.
  - destruct (taskrun.step ev c) as [c1|] eqn:E; [|discriminate].
    eapply IH; [|exact H]. eapply taskrun_step_invariant; eassumption.
Qed.

(** C3: in every interleaving of [Run] and its two goroutines, both
    goroutines have been started when [rsync.Run] is awaiting the exit of
    the process, and both have finished (have called [wg.Done]) when the
    result of that wait is about to be returned or has been returned. *)
Theorem Run_drains_before_return
    (evs : list taskrun.event) (c : taskrun.config) :
  taskrun.exec evs taskrun.init = Some c ->
  (taskrun.exitAwaited (taskrun.main c) = true ->
   taskrun.started (taskrun.outDrain c) = true
   /\ taskrun.started (taskrun.errDrain c) = true)
  /\ (forall err,
         taskrun.main c = taskrun.AtReturn err
         \/ taskrun.main c = taskrun.Returned err ->
         taskrun.finished (taskrun.outDrain c) = true
         /\ taskrun.finished (taskrun.errDrain c) = true).
Proof.
  intros H.
  pose proof (taskrun_exec_invariant evs _ _ taskrun_init_invariant H) as I.
  destruct c as [m o e n]. unfold taskrun.invariant in I.
  cbn [taskrun.main taskrun.outDrain taskrun.errDrain taskrun.wg] in *.
  split.
  - intros Hm. destruct m; try discriminate Hm;
      cbn [taskrun.rank Nat.ltb Nat.leb] in I;
      destruct I as (I1 & I2 & _); now split.
  - intros err [-> | ->]; cbn [taskrun.rank Nat.ltb Nat.leb] in I;
      destruct I as (_ & _ & _ & I4); destruct (I4 eq_refl) as [-> ->];
      now split.
Qed.

(** A complete run: the stderr drain ends while the process still runs,
    the stdout drain after its exit, and [Run] returns the exit error. *)
Lemma Run_drains_before_return_witness :
  taskrun.finished
    (taskrun.outDrain
       {| taskrun.main := taskrun.Returned (Some "exit status 23");
          taskrun.outDrain := taskrun.Finished;
          taskrun.errDrain := taskrun.Finished; taskrun.wg := 0 |}) = true
  /\ taskrun.finished taskrun.Finished = true.
Proof.
  refine (proj2
            (Run_drains_before_return
               [ taskrun.StderrPipe None; taskrun.StdoutPipe None;
                 taskrun.GoStdout; taskrun.GoStderr; taskrun.Add;
                 taskrun.RunStart; taskrun.DoneStderr;
                 taskrun.RunExit (Some "exit status 23");
                 taskrun.DoneStdout; taskrun.Wait; taskrun.Return ]
               _ _) (Some "exit status 23") _).
  - vm_compute. reflexivity.
  - right. reflexivity.
Defined.

(* ================================================================== *)
(** * Further properties *)

(** ** The line splitter: nothing but terminators is dropped *)

Lemma IndexAny_Some (s : string) (i : nat) :
  bytes.IndexAny s (String CR (String LF EmptyString)) = Some i ->
  exists pre c rest,
    s = pre ++ String c rest /\ noDelimiter pre /\ (c = CR \/ c = LF)
    /\ i = length pre.
Proof.
  revert i; induction s as [|d s IH]; intros i H; [discriminate|].
  cbn [bytes.IndexAny] in H.
  destruct (elem d _) eqn:E.
  - injection H as <-. exists EmptyString, d, s.
    split; [reflexivity|]. split; [intros c []|].
    split; [now apply elem_delim | reflexivity].
  - destruct (bytes.IndexAny s _) as [j|]; [|discriminate].
    injection H as <-.
    destruct (IH j eq_refl) as (pre & c & rest & -> & Hpre & Hc & ->).
    exists (String d pre), c, rest.
    split; [reflexivity|]. split; [|split; [assumption | reflexivity]].
    intros x [<- | Hx]; [|now apply Hpre].
    split; intros ->; discriminate E.
Qed.

Lemma IndexAny_None (s : string) :
  bytes.IndexAny s (String CR (String LF EmptyString)) = None ->
  noDelimiter s.
Proof.
  induction s as [|d s IH]; intros H; [intros c []|].
  cbn [bytes.IndexAny] in H.
  destruct (elem d _) eqn:E; [discriminate|].
  destruct (bytes.IndexAny s _); [discriminate|].
  intros c [<- | Hc]; [|now apply IH].
  split; intros ->; discriminate E.
Qed.

(** X1: whatever the input, a token of the splitter has no line
    terminator in it, the bytes consumed are the token followed by one
    terminator ([\n], [\r] or [\r\n]) or, for the last line at the end of
    input, by nothing; a token always consumes at least one byte, and
    without a token nothing is consumed. *)
Theorem scanProgressLines_progress (data : string) (atEOF : bool) :
  match scanProgressLines data atEOF with
  | (advance, Some token) =>
      noDelimiter token
      /\ (1 <= advance <= length data)%nat
      /\ exists term,
           sliceTo advance data = token ++ term
           /\ (term = String LF EmptyString \/ term = String CR EmptyString
               \/ term = CRLF
               \/ (term = EmptyString /\ atEOF = true /\ token = data))
  | (advance, None) => advance = O
  end.
Proof.
  destruct (bytes.IndexAny data (String CR (String LF EmptyString)))
    as [i|] eqn:E.
  - apply IndexAny_Some in E as (pre & c & rest & -> & Hpre & Hc & ->).
    rewrite (scan_delimited pre c rest atEOF Hpre Hc).
    split; [exact Hpre|]. rewrite length_app. cbn [length].
    destruct Hc as [-> | ->].
    + change (Ascii.eqb CR LF) with false. cbv iota.
      destruct rest as [|d rest].
      * split; [lia|]. exists (String CR EmptyString).
        replace (length pre + 1)%nat
          with (length (pre ++ String CR EmptyString))
          by (rewrite length_app; reflexivity).
        rewrite <- (app_empty_r (pre ++ String CR "")) at 2.
        rewrite sliceTo_app. auto.
      * destruct (Ascii.eqb d LF) eqn:Ed.
        -- apply Ascii.eqb_eq in Ed as ->. cbn [length]. split; [lia|].
           exists CRLF. split; [|auto].
           replace (length pre + 2)%nat with (length (pre ++ CRLF))
             by (rewrite length_app; reflexivity).
           replace (pre ++ String CR (String LF rest))
             with ((pre ++ CRLF) ++ rest)
             by (rewrite app_assoc_s; reflexivity).
           apply sliceTo_app.
        -- cbn [length]. split; [lia|]. exists (String CR EmptyString).
           split; [|auto].
           replace (length pre + 1)%nat
             with (length (pre ++ String CR EmptyString))
             by (rewrite length_app; reflexivity).
           replace (pre ++ String CR (String d rest))
             with ((pre ++ String CR "") ++ String d rest)
             by (rewrite app_assoc_s; reflexivity).
           apply sliceTo_app.
    + change (Ascii.eqb LF LF) with true. cbv iota. split; [lia|].
      exists (String LF EmptyString). split; [|auto].
      replace (length pre + 1)%nat
        with (length (pre ++ String LF EmptyString))
        by (rewrite length_app; reflexivity).
      replace (pre ++ String LF rest)
        with ((pre ++ String LF "") ++ rest)
        by (rewrite app_assoc_s; reflexivity).
      apply sliceTo_app.
  - unfold scanProgressLines. rewrite E.
    destruct atEOF; cbn [andb]; [|reflexivity].
    destruct data as [|d data]; [reflexivity|].
    cbn [length Nat.eqb]. split; [now apply IndexAny_None|].
    split; [cbn [length]; lia|].
    exists EmptyString. split; [|auto 6].
    change (S (length data)) with (length (String d data)).
    rewrite !app_empty_r.
    rewrite <- (app_empty_r (String d data)) at 2. apply sliceTo_app.
Qed.

(** ** The scanner loop over the splitter *)

Lemma MaxScanTokenSize_pos : (0 < bufio.MaxScanTokenSize)%nat.
Proof. unfold bufio.MaxScanTokenSize. apply Nat.mul_pos_pos; lia. Qed.

(** The first terminator of a byte sequence is where it is. *)
Lemma first_delimiter (a : string) (c : ascii) (x b : string) (d : ascii)
    (y : string) :
  noDelimiter a -> c = CR \/ c = LF -> noDelimiter b -> d = CR \/ d = LF ->
  a ++ String c x = b ++ String d y -> a = b /\ c = d /\ x = y.
Proof.
  revert b; induction a as [|e a IH]; intros b Ha Hc Hb Hd E.
  - destruct b as [|f b]; cbn [append] in E.
    + injection E as -> ->. auto.
    + injection E as -> _. apply noDelimiter_cons in Hb as [[? ?] _].
      destruct Hc; congruence.
  - apply noDelimiter_cons in Ha as [[? ?] Ha].
    destruct b as [|f b]; cbn [append] in E.
    + injection E as -> _. destruct Hd; congruence.
    + injection E as -> E. apply noDelimiter_cons in Hb as [_ Hb].
      destruct (IH b Ha Hc Hb Hd E) as (-> & -> & ->). auto.
Qed.

(** A stretch without terminator at the head of a stream lies within the
    first line. *)
Lemma prefix_in_line (a x b : string) (d : ascii) (y : string) :
  noDelimiter a -> d = CR \/ d = LF ->
  a ++ x = b ++ String d y -> (length a <= length b)%nat.
Proof.
  revert b; induction a as [|e a IH]; intros b Ha Hd E; [cbn; lia|].
  apply noDelimiter_cons in Ha as [[? ?] Ha].
  destruct b as [|f b]; cbn [append] in E.
  - injection E as -> _. destruct Hd; congruence.
  - injection E as _ E. cbn [length]. apply le_n_S. now apply (IH b Ha Hd).
Qed.

Lemma length_prefix (a x b : string) : a ++ x = b -> (length a <= length b)%nat.
Proof. intros <-. rewrite length_app. lia. Qed.

Lemma scan_no_delimiter (buf : string) :
  noDelimiter buf ->
  scanProgressLines buf false = (O, None)
  /\ scanProgressLines buf true
     = (length buf, if (length buf =? 0)%nat then None else Some buf).
Proof.
  intros H. unfold scanProgressLines.
  rewrite (IndexAny_noDelimiter buf H). cbn [andb].
  destruct buf; auto.
Qed.

Lemma wellFormed_weaken (prev : ascii) (ls : list (string * ascii)) :
  wellFormed prev ls -> wellFormed LF ls.
Proof.
  destruct ls as [|[l t] ls]; [auto|].
  cbn [wellFormed]. intros (? & ? & ? & _ & ?).
  do 3 (split; [assumption|]). split; [|assumption].
  intros (E & _). discriminate E.
Qed.

Lemma sliceFrom_all (s : string) : sliceFrom (length s) s = EmptyString.
Proof. induction s; [reflexivity | assumption]. Qed.

(** The scanner from any of its states: the buffer and what the reads still
    give make up the lines that are left. *)
Lemma scan_stream (fuel : nat) :
  forall (buf : string) (chunks : list string) (atEOF : bool)
         (ls : list (string * ascii)) (last : string),
  wellFormed LF ls -> noDelimiter last ->
  (length last < bufio.MaxScanTokenSize)%nat ->
  buf ++ joined chunks = stream ls last ->
  (atEOF = true -> chunks = []) ->
  (length buf + length (joined chunks) + List.length chunks
   + (if atEOF then 0 else 1) < fuel)%nat ->
  bufio.scan scanProgressLines fuel buf chunks atEOF
  = (map fst ls ++ if (length last =? 0)%nat then [] else [last])%list.
Proof.
  induction fuel as [|fuel IH]; intros buf chunks atEOF ls last Hwf Hlast Hlen
    E Heof Hfuel; [lia|].
  pose proof MaxScanTokenSize_pos as Hmax.
  cbn [bufio.scan].
  destruct (bytes.IndexAny buf (String CR (String LF EmptyString)))
    as [i|] eqn:Ei.
  - (* a terminator in the buffer: the first line is complete *)
    apply IndexAny_Some in Ei as (pre & c & rest & -> & Hpre & Hc & ->).
    replace ((0 <? length (pre ++ String c rest))%nat) with true
      by (symmetry; apply Nat.ltb_lt; rewrite length_app; cbn [length]; lia).
    cbn [orb]. rewrite (scan_delimited pre c rest atEOF Hpre Hc).
    rewrite app_assoc_s in E. cbn [append] in E.
    destruct ls as [|[l t] ls].
    { cbn [stream] in E. exfalso.
      assert (In c (list_ascii_of_string last)) as Hin.
      { rewrite <- E. clear. induction pre; cbn; auto. }
      apply Hlast in Hin. destruct Hc; tauto. }
    cbn [stream wellFormed] in E, Hwf.
    destruct Hwf as (Hl & Hll & Ht & _ & Hwf).
    destruct (first_delimiter pre c _ l t _ Hpre Hc Hl Ht E)
      as (-> & -> & Erest).
    assert (forall adv,
      adv = (length l + 1)%nat ->
      (if (length (l ++ String t rest) <? adv)%nat then []
       else l :: bufio.scan scanProgressLines fuel
                   (sliceFrom adv (l ++ String t rest)) chunks atEOF)
      = (map fst ((l, t) :: ls)
         ++ if (length last =? 0)%nat then [] else [last])%list) as Hstep.
    { intros adv ->.
      replace ((length (l ++ String t rest) <? length l + 1)%nat) with false
        by (symmetry; apply Nat.ltb_ge; rewrite length_app; cbn [length]; lia).
      replace (l ++ String t rest) with ((l ++ String t "") ++ rest)
        by (rewrite app_assoc_s; reflexivity).
      replace (length l + 1)%nat with (length (l ++ String t ""))
        by (rewrite length_app; reflexivity).
      rewrite sliceFrom_app. cbn [map fst app]. f_equal.
      apply IH; try assumption.
      - now apply wellFormed_weaken in Hwf.
      - rewrite length_app in Hfuel. cbn [length] in Hfuel. lia. }
    destruct Ht as [-> | ->].
    + change (Ascii.eqb CR LF) with false. cbv iota.
      destruct rest as [|d rest]; [now apply Hstep|].
      destruct (Ascii.eqb d LF) eqn:Ed; [|now apply Hstep].
      (* the next byte cannot be a line feed *)
      exfalso. apply Ascii.eqb_eq in Ed as ->.
      destruct ls as [|[l' t'] ls]; cbn [stream wellFormed] in Erest, Hwf.
      * assert (In LF (list_ascii_of_string last)) as Hin
          by (rewrite <- Erest; cbn; auto).
        apply Hlast in Hin. tauto.
      * destruct Hwf as (Hl' & _ & Ht' & Hno & _).
        assert (noDelimiter EmptyString) as Hnil by (intros x []).
        destruct (first_delimiter EmptyString LF (rest ++ joined chunks)
                    l' t' (stream ls last) Hnil (or_intror eq_refl) Hl' Ht'
                    Erest) as (<- & <- & _).
        tauto.
    + change (Ascii.eqb LF LF) with true. cbv iota. now apply Hstep.
  - (* no terminator in the buffer *)
    pose proof (IndexAny_None buf Ei) as Hbuf.
    destruct (scan_no_delimiter buf Hbuf) as [Hfalse Htrue].
    assert (length buf < bufio.MaxScanTokenSize)%nat as Hshort.
    { destruct ls as [|[l t] ls]; cbn [stream wellFormed] in E, Hwf.
      - apply length_prefix in E. lia.
      - destruct Hwf as (_ & Hll & Ht & _).
        pose proof (prefix_in_line buf _ l t _ Hbuf Ht E). lia. }
    destruct atEOF.
    + (* after the end: what is left is the last line *)
      rewrite (Heof eq_refl) in *. cbn [joined fold_right] in E.
      rewrite app_empty_r in E. rewrite Bool.orb_true_r, Htrue.
      rewrite Nat.ltb_irrefl.
      destruct ls as [|[l t] ls]; cbn [stream] in E.
      2:{ exfalso. assert (In t (list_ascii_of_string buf)) as Hin.
          { rewrite E. clear. induction l; cbn; auto. }
          cbn [wellFormed] in Hwf. destruct Hwf as (_ & _ & Ht & _).
          apply Hbuf in Hin. destruct Ht; tauto. }
      subst last. cbn [map app].
      destruct (length buf =? 0)%nat eqn:E0; [reflexivity|].
      f_equal. rewrite sliceFrom_all.
      apply Nat.eqb_neq in E0.
      destruct fuel as [|fuel']; [lia|]. reflexivity.
    + assert ((if (0 <? length buf)%nat || false
               then scanProgressLines buf false else (O, None)) = (O, None))
        as -> by (destruct (_ || _); [exact Hfalse | reflexivity]).
      cbn [Nat.ltb Nat.leb sliceFrom].
      replace ((bufio.MaxScanTokenSize <=? length buf)%nat) with false
        by (symmetry; apply Nat.leb_gt; exact Hshort).
      destruct chunks as [|chunk chunks].
      * apply IH; try assumption; [reflexivity|]. lia.
      * apply IH; try assumption.
        -- rewrite app_assoc_s. exact E.
        -- discriminate.
        -- change (joined (chunk :: chunks)) with (chunk ++ joined chunks)
             in Hfuel.
           cbn [List.length] in Hfuel. rewrite length_app in Hfuel.
           rewrite length_app. lia.
Qed.

(** X2: however the reads cut the output of rsync into pieces, the loop of
    [processStdout] sees the lines of the output, one after the other: each
    line that a carriage return or a line feed ends, and the last line if it
    has no terminator and is not empty.  This holds for lines that fit the
    buffer of the scanner and hold no terminator, where no empty line ended
    by a line feed follows a line ended by a carriage return. *)
Theorem scanLines_chunking (chunks : list string)
    (ls : list (string * ascii)) (last : string) :
  wellFormed LF ls -> noDelimiter last ->
  (length last < bufio.MaxScanTokenSize)%nat ->
  joined chunks = stream ls last ->
  scanLines chunks
  = (map fst ls ++ if (length last =? 0)%nat then [] else [last])%list.
Proof.
  intros Hwf Hlast Hlen E. unfold scanLines.
  apply scan_stream; try assumption; [discriminate|].
  cbn [length]. lia.
Qed.

(** Closed instances of the conditions on lines. *)
Ltac closed_lines :=
  cbn [wellFormed];
  repeat match goal with
    | |- _ /\ _ => split
    | |- noDelimiter _ => apply IndexAny_None; reflexivity
    | |- (_ < _)%nat => apply Nat.ltb_lt; reflexivity
    | |- _ \/ _ => first [left; reflexivity | right; reflexivity]
    | |- ~ _ =>
        let E1 := fresh in let E2 := fresh in let E3 := fresh in
        intros (E1 & E2 & E3);
        first [discriminate E1 | discriminate E2 | discriminate E3]
    | |- True => exact I
    end.

Lemma scanLines_chunking_witness :
  scanLines
    ["fi"; "le" ++ String LF " 1%" ++ String CR " 2"; "%" ++ String LF "end"]
  = ["file"; " 1%"; " 2%"; "end"].
Proof.
  apply (scanLines_chunking
           ["fi"; "le" ++ String LF " 1%" ++ String CR " 2";
            "%" ++ String LF "end"]
           [("file", LF); (" 1%", CR); (" 2%", LF)] "end").
  - closed_lines.
  - closed_lines.
  - closed_lines.
  - reflexivity.
Defined.

Lemma scan_read (split : string -> bool -> nat * option string) (fuel : nat)
    (chunk : string) (chunks : list string) :
  bufio.scan split (S fuel) EmptyString (chunk :: chunks) false
  = bufio.scan split fuel chunk chunks false.
Proof. reflexivity. Qed.

Lemma scan_token (fuel : nat) (pre : string) (c : ascii) (rest : string)
    (chunks : list string) (atEOF : bool) (advance : nat) :
  scanProgressLines (pre ++ String c rest) atEOF = (advance, Some pre) ->
  (advance <= length (pre ++ String c rest))%nat ->
  bufio.scan scanProgressLines (S fuel) (pre ++ String c rest) chunks atEOF
  = pre :: bufio.scan scanProgressLines fuel
             (sliceFrom advance (pre ++ String c rest)) chunks atEOF.
Proof.
  intros E Hadv. cbn [bufio.scan].
  replace ((0 <? length (pre ++ String c rest))%nat) with true
    by (symmetry; apply Nat.ltb_lt; rewrite length_app; cbn [length]; lia).
  cbn [orb]. rewrite E.
  replace ((length (pre ++ String c rest) <? advance)%nat) with false
    by (symmetry; apply Nat.ltb_ge; exact Hadv).
  reflexivity.
Qed.

(** X3: a line ended by [\r\n] is one line when the two bytes come with the
    same read, and is followed by an empty line when a read ends between
    them: the splitter does not wait for the byte after a carriage return. *)
Theorem scanLines_CRLF_across_reads (a b : string) :
  noDelimiter a -> noDelimiter b ->
  (length b < bufio.MaxScanTokenSize)%nat ->
  scanLines [a ++ CRLF ++ b ++ String LF EmptyString] = [a; b]
  /\ scanLines [a ++ String CR EmptyString;
                String LF EmptyString ++ b ++ String LF EmptyString]
     = [a; EmptyString; b].
Proof.
  intros Ha Hb Hlen.
  assert (noDelimiter EmptyString) as Hnil by (intros x []).
  pose proof MaxScanTokenSize_pos as Hmax.
  split; unfold scanLines.
  - cbn [List.length Nat.add joined fold_right]. rewrite app_empty_r.
    rewrite scan_read. unfold CRLF. cbn [append].
    rewrite (scan_token _ a CR _ [] false (length a + 2));
      [ | now rewrite (scan_delimited a CR _ false Ha (or_introl eq_refl))
        | rewrite length_app; cbn [length]; lia ].
    f_equal.
    replace (a ++ String CR (String LF (b ++ String LF "")))
      with ((a ++ String CR (String LF "")) ++ b ++ String LF "")
      by (rewrite app_assoc_s; reflexivity).
    replace (length a + 2)%nat with (length (a ++ String CR (String LF "")))
      by (rewrite length_app; reflexivity).
    rewrite sliceFrom_app.
    apply (scan_stream _ _ [] false [(b, LF)] EmptyString); auto.
    + cbn [wellFormed]. do 2 (split; [assumption|]). split; [now right|].
      split; [|exact I]. intros (E & _). discriminate E.
    + cbn [joined fold_right stream]. now rewrite app_empty_r.
    + repeat (progress (cbn [joined fold_right List.length append length]
                        || rewrite length_app)).
      lia.
  - cbn [List.length Nat.add joined fold_right]. rewrite app_empty_r.
    rewrite scan_read.
    rewrite (scan_token _ a CR EmptyString _ false (length a + 1));
      [ | now rewrite (scan_delimited a CR _ false Ha (or_introl eq_refl))
        | rewrite length_app; cbn [length]; lia ].
    f_equal.
    replace (length a + 1)%nat with (length (a ++ String CR ""))
      by (rewrite length_app; reflexivity).
    rewrite sliceFrom_all.
    apply (scan_stream _ _ _ false [(EmptyString, LF); (b, LF)] EmptyString);
      auto.
    + cbn [wellFormed]. split; [assumption|]. split; [exact Hmax|].
      split; [now right|]. split; [intros (E & _); discriminate E|].
      do 2 (split; [assumption|]). split; [now right|].
      split; [|exact I]. intros (E & _). discriminate E.
    + cbn [joined fold_right stream append]. now rewrite app_empty_r.
    + discriminate.
    + repeat (progress (cbn [joined fold_right List.length append length]
                        || rewrite length_app)).
      lia.
Qed.

Lemma scanLines_CRLF_across_reads_witness :
  scanLines ["ab" ++ CRLF ++ "cd" ++ String LF EmptyString] = ["ab"; "cd"]
  /\ scanLines ["ab" ++ String CR EmptyString;
                String LF EmptyString ++ "cd" ++ String LF EmptyString]
     = ["ab"; EmptyString; "cd"].
Proof.
  apply (scanLines_CRLF_across_reads "ab" "cd"); closed_lines.
Defined.

(** ** The loops of the two drains *)

Lemma processStdoutLine_eq (task : Task) (logStr : string) :
  processStdoutLine task logStr
  = {| state := lineState logStr (state task);
       log := {| Stderr := Stderr (log task);
                 Stdout := Stdout (log task) ++ logStr
                           ++ String LF EmptyString |} |}.
Proof.
  rewrite <- processStdoutLine_state. reflexivity.
Qed.

Lemma processStdout_cons (task : Task) (l : string) (lines : list string) :
  processStdout task (l :: lines)
  = processStdout (processStdoutLine task l) lines.
Proof. reflexivity. Qed.

Lemma processStdout_log_eq (lines : list string) :
  forall task,
  log (processStdout task lines)
  = {| Stderr := Stderr (log task);
       Stdout := Stdout (log task) ++ terminated (String LF EmptyString) lines |}.
Proof.
  induction lines as [|l lines IH]; intros task.
  - cbn. rewrite app_empty_r. now destruct (log task).
  - rewrite processStdout_cons, IH, processStdoutLine_eq.
    cbn [log Stderr Stdout terminated fold_right]. f_equal.
    now rewrite !app_assoc_s.
Qed.

Lemma processStderr_eq (lines : list string) :
  forall task,
  processStderr task lines
  = {| state := state task;
       log := {| Stderr := Stderr (log task)
                           ++ terminated (String LF EmptyString) lines;
                 Stdout := Stdout (log task) |} |}.
Proof.
  induction lines as [|l lines IH]; intros task.
  - cbn. rewrite app_empty_r. destruct task as [st [e o]]. reflexivity.
  - change (processStderr task (l :: lines))
      with (processStderr
              {| state := state task;
                 log := {| Stderr := Stderr (log task) ++ l
                                     ++ String LF EmptyString;
                           Stdout := Stdout (log task) |} |} lines).
    rewrite IH. cbn [state log Stderr Stdout terminated fold_right].
    now rewrite !app_assoc_s.
Qed.

(** X4: [processStdout] appends every line it sees, followed by a line
    feed, to the log of the standard output, in the order of the lines, and
    leaves the log of the standard error as it is; [processStderr] does the
    same to the log of the standard error, and leaves the other log and the
    state as they are. *)
Theorem drains_logs (task : Task) (lines : list string) :
  log (processStdout task lines)
  = {| Stderr := Stderr (log task);
       Stdout := Stdout (log task)
                 ++ terminated (String LF EmptyString) lines |}
  /\ log (processStderr task lines)
     = {| Stderr := Stderr (log task)
                    ++ terminated (String LF EmptyString) lines;
          Stdout := Stdout (log task) |}
  /\ state (processStderr task lines) = state task.
Proof.
  split; [apply processStdout_log_eq|].
  rewrite processStderr_eq. split; reflexivity.
Qed.

Lemma processStdout_stderr_round (lines : list string) (l : string) :
  forall task,
  processStdout (processStderr task [l]) lines
  = processStderr (processStdout task lines) [l].
Proof.
  induction lines as [|o lines IH]; intros task; [reflexivity|].
  rewrite !processStdout_cons, <- IH. reflexivity.
Qed.

Lemma processStderr_cons (task : Task) (l : string) (lines : list string) :
  processStderr task (l :: lines)
  = processStderr (processStderr task [l]) lines.
Proof. reflexivity. Qed.

(** X5: the two drains do not disturb each other: in whatever order the
    rounds of the two loops follow one another, the task ends as if
    [processStdout] had run over all of its lines first and [processStderr]
    over all of its lines after it. *)
Theorem drains_any_order (rounds : list (string + string)) (task : Task) :
  drains task rounds
  = processStderr (processStdout task (stdoutLines rounds))
      (stderrLines rounds).
Proof.
  revert task; induction rounds as [|[l|l] rounds IH]; intros task.
  - reflexivity.
  - change (drains task (inl l :: rounds))
      with (drains (processStdoutLine task l) rounds).
    rewrite IH. reflexivity.
  - change (drains task (inr l :: rounds))
      with (drains (processStderr task [l]) rounds).
    rewrite IH. cbn [stdoutLines stderrLines].
    rewrite processStdout_stderr_round.
    now rewrite (processStderr_cons _ l).
Qed.

Lemma processStdout_state (lines : list string) :
  forall task,
  state (processStdout task lines)
  = fold_left (fun st l => lineState l st) lines (state task).
Proof.
  induction lines as [|l lines IH]; intros task; [reflexivity|].
  rewrite processStdout_cons, IH, processStdoutLine_state. reflexivity.
Qed.

Lemma last_cons {A : Type} (xs : list A) :
  forall x d, last (x :: xs) d = last xs x.
Proof.
  induction xs as [|y xs IH]; intros x d; [reflexivity|].
  change (last (x :: y :: xs) d) with (last (y :: xs) d).
  now rewrite !IH.
Qed.

(** X6: after [processStdout], the file name of the state is the last of the
    lines that [isFilename] accepts, and the file name of before if it
    accepts none of them. *)
Theorem processStdout_Filename (lines : list string) (task : Task) :
  Filename (state (processStdout task lines))
  = last (filter isFilename lines) (Filename (state task)).
Proof.
  rewrite processStdout_state. generalize (state task) as st.
  induction lines as [|l lines IH]; intros st; [reflexivity|].
  cbn [fold_left filter]. rewrite IH.
  change (Filename (lineState l st))
    with (if isFilename l then l else Filename st).
  destruct (isFilename l); [|reflexivity].
  symmetry. apply last_cons.
Qed.

Lemma terminated_stream (ls : list (string * ascii)) (tl : list string) :
  terminated (String LF EmptyString) (map fst ls ++ tl)
  = stream (map (fun l => (fst l, LF)) ls)
      (terminated (String LF EmptyString) tl).
Proof.
  induction ls as [|[l t] ls IH]; [reflexivity|].
  cbn [map app fst stream].
  change (terminated (String LF "") (l :: map fst ls ++ tl))
    with (l ++ String LF (terminated (String LF "") (map fst ls ++ tl))).
  now rewrite IH.
Qed.

(** X7: the log of the standard output is the output of rsync with a line
    feed for the terminator of every line, and a line feed after a last
    line without terminator, however the reads cut the output into pieces
    (for lines as in [scanLines_chunking]). *)
Theorem processStdout_log_stream (chunks : list string)
    (ls : list (string * ascii)) (last : string) :
  wellFormed LF ls -> noDelimiter last ->
  (length last < bufio.MaxScanTokenSize)%nat ->
  joined chunks = stream ls last ->
  Stdout (log (processStdout NewTask (scanLines chunks)))
  = stream (map (fun l => (fst l, LF)) ls)
      (if (length last =? 0)%nat then EmptyString
       else last ++ String LF EmptyString).
Proof.
  intros Hwf Hlast Hlen E. unfold scanLines.
  rewrite (scan_stream _ EmptyString chunks false ls last Hwf Hlast Hlen E);
    [ | discriminate | cbn [length]; lia ].
  rewrite processStdout_log_eq. cbn [Stdout NewTask log append].
  rewrite terminated_stream.
  destruct (length last =? 0)%nat; reflexivity.
Qed.

Lemma processStdout_log_stream_witness :
  Stdout (log (processStdout NewTask
    (scanLines
       ["fi"; "le" ++ String LF " 1%" ++ String CR " 2";
        "%" ++ String LF "end"])))
  = "file" ++ String LF " 1%" ++ String LF " 2%" ++ String LF "end"
    ++ String LF EmptyString.
Proof.
  apply (processStdout_log_stream
           ["fi"; "le" ++ String LF " 1%" ++ String CR " 2";
            "%" ++ String LF "end"]
           [("file", LF); (" 1%", CR); (" 2%", LF)] "end").
  - closed_lines.
  - closed_lines.
  - closed_lines.
  - reflexivity.
Defined.

(** ** Fields of the captured texts *)

Lemma splitFrom_nonempty (d : ascii) (s : string) :
  strings.splitFrom (String d EmptyString) 0 s <> [].
Proof.
  destruct s as [|c s]; [discriminate|].
  cbn [strings.splitFrom]. destruct (strings.HasPrefix _ _); [discriminate|].
  destruct (strings.splitFrom _ 0 s); discriminate.
Qed.

(** The pieces of [x], then the pieces of [y]. *)
Lemma splitFrom_app (d : ascii) (x y : string) :
  strings.splitFrom (String d EmptyString) 0 (x ++ String d y)
  = (strings.splitFrom (String d EmptyString) 0 x
     ++ strings.splitFrom (String d EmptyString) 0 y)%list.
Proof.
  induction x as [|c x IH].
  - cbn [append strings.splitFrom]. rewrite HasPrefix_byte, Ascii.eqb_refl.
    reflexivity.
  - cbn [append strings.splitFrom]. rewrite !HasPrefix_byte.
    destruct (Ascii.eqb c d).
    + cbn [length Nat.sub]. rewrite IH. reflexivity.
    + rewrite IH. pose proof (splitFrom_nonempty d x) as Hne.
      destruct (strings.splitFrom _ 0 x); [congruence | reflexivity].
Qed.

Lemma nth_last_app {A : Type} (l : list A) (b d : A) :
  nth (List.length (l ++ [b]) - 1) (l ++ [b]) d = b.
Proof.
  rewrite List.length_app. cbn [List.length].
  replace (List.length l + 1 - 1)%nat with (List.length l) by lia.
  rewrite app_nth2 by lia. now rewrite Nat.sub_diag.
Qed.

(** X8: of the text before the percent sign, [getTaskTransfered] reads the
    first blank-separated field as the size and the last one as the
    percentage, whatever stands between them; a text of a single field
    gives no size and no percentage. *)
Theorem getTaskTransfered_fields (a mid b : string) :
  noByte " " a -> noByte " " b ->
  getTaskTransfered a = (0%Z, 0%Z)
  /\ getTaskTransfered (a ++ " " ++ b)
     = (sizeToBytes a, fst (strconv.Atoi b))
  /\ getTaskTransfered (a ++ " " ++ mid ++ " " ++ b)
     = (sizeToBytes a, fst (strconv.Atoi b)).
Proof.
  intros Ha Hb. unfold getTaskTransfered, strings.Split.
  change (" " ++ b) with (String " " b).
  change (" " ++ mid ++ String " " b) with (String " " (mid ++ String " " b)).
  rewrite (splitFrom_none " " a Ha), (splitFrom_first " " a b Ha),
    (splitFrom_first " " a _ Ha), (splitFrom_app " " mid b),
    (splitFrom_none " " b Hb).
  split; [reflexivity|]. split; [reflexivity|].
  set (pieces := strings.splitFrom " " 0 mid).
  replace ((List.length (a :: pieces ++ [b]) <? 2)%nat) with false
    by (symmetry; apply Nat.ltb_ge; cbn [List.length];
        rewrite List.length_app; cbn [List.length]; lia).
  change (a :: pieces ++ [b])%list with ((a :: pieces) ++ [b])%list.
  rewrite nth_last_app. reflexivity.
Qed.

Lemma getTaskTransfered_fields_witness :
  getTaskTransfered "123,456" = (0%Z, 0%Z)
  /\ getTaskTransfered ("123,456" ++ " " ++ "78")
     = (sizeToBytes "123,456", fst (strconv.Atoi "78"))
  /\ getTaskTransfered ("123,456" ++ " " ++ "of  about" ++ " " ++ "78")
     = (sizeToBytes "123,456", fst (strconv.Atoi "78")).
Proof.
  assert (forall s, existsb (Ascii.eqb " ") (list_ascii_of_string s) = false
                    -> noByte " " s) as Hno.
  { intros s H Hin.
    assert (existsb (Ascii.eqb " ") (list_ascii_of_string s) = true)
      by (apply existsb_exists; exists " "%char; split;
          [exact Hin | apply Ascii.eqb_refl]).
    congruence. }
  exact (getTaskTransfered_fields "123,456" "of  about" "78"
           (Hno "123,456" eq_refl) (Hno "78" eq_refl)).
Defined.

(** Every comma goes, whatever is around it. *)
Lemma replace_comma_app (x y : string) :
  strings.replaceFrom "," EmptyString 0 (x ++ y)
  = strings.replaceFrom "," EmptyString 0 x
    ++ strings.replaceFrom "," EmptyString 0 y.
Proof.
  induction x as [|c x IH]; [reflexivity|].
  cbn [append strings.replaceFrom]. rewrite !HasPrefix_byte.
  destruct (Ascii.eqb c ","); cbn [length Nat.sub append]; now rewrite IH.
Qed.

(** X9: a comma in the number of a size with a unit counts for nothing,
    wherever it stands. *)
Theorem sizeToBytes_commas (a b u : string) :
  In u units ->
  sizeToBytes (a ++ "," ++ b ++ u) = sizeToBytes (a ++ b ++ u).
Proof.
  intros Hu. unfold sizeToBytes.
  replace (a ++ "," ++ b ++ u) with ((a ++ "," ++ b) ++ u)
    by (now rewrite !app_assoc_s).
  replace (a ++ b ++ u) with ((a ++ b) ++ u) by (now rewrite !app_assoc_s).
  rewrite !(findUnit_units _ u Hu).
  unfold strings.ReplaceAll.
  rewrite !replace_comma_app. reflexivity.
Qed.

Lemma sizeToBytes_commas_witness :
  sizeToBytes ("1" ++ "," ++ "024.5" ++ "K")
  = sizeToBytes ("1" ++ "024.5" ++ "K").
Proof.
  apply (sizeToBytes_commas "1" "024.5" "K"). cbn. auto.
Defined.

(** X10: [getTaskProgress] reads the first two of the parts that slashes
    separate, and nothing of what follows a second slash. *)
Theorem getTaskProgress_first_two (a b rest : string) :
  noByte "/" a -> noByte "/" b ->
  getTaskProgress (a ++ "/" ++ b ++ "/" ++ rest)
  = (fst (strconv.Atoi a), fst (strconv.Atoi b)).
Proof.
  intros Ha Hb. unfold getTaskProgress, strings.Split.
  change ("/" ++ b ++ "/" ++ rest) with (String "/" (b ++ String "/" rest)).
  rewrite (splitFrom_first "/" a _ Ha), (splitFrom_first "/" b rest Hb).
  reflexivity.
Qed.

Lemma getTaskProgress_first_two_witness :
  getTaskProgress ("12" ++ "/" ++ "34" ++ "/" ++ "56/x")
  = (fst (strconv.Atoi "12"), fst (strconv.Atoi "34")).
Proof.
  assert (forall s, existsb (Ascii.eqb "/") (list_ascii_of_string s) = false
                    -> noByte "/" s) as Hno.
  { intros s H Hin.
    assert (existsb (Ascii.eqb "/") (list_ascii_of_string s) = true)
      by (apply existsb_exists; exists "/"%char; split;
          [exact Hin | apply Ascii.eqb_refl]).
    congruence. }
  exact (getTaskProgress_first_two "12" "34" "56/x"
           (Hno "12" eq_refl) (Hno "34" eq_refl)).
Defined.

(** ** [Task.Run]: failure, result and end *)

Lemma taskrun_step_late (ev : taskrun.event) (c c' : taskrun.config) :
  taskrun.step ev c = Some c' ->
  taskrun.early (taskrun.main c) = false ->
  taskrun.early (taskrun.main c') = false.
Proof.
  destruct c as [m o e n]. unfold taskrun.step, taskrun.done, taskrun.moveTo.
  cbn [taskrun.main taskrun.outDrain taskrun.errDrain taskrun.wg].
  intros H Hm.
  destruct ev as [[?|]|[?|]| | | | |?| | | |]; destruct m;
    try discriminate H; try discriminate Hm;
    try (destruct o; try discriminate H);
    try (destruct e; try discriminate H);
    try (destruct (n =? 0)%Z; [|discriminate H]);
    injection H as <-; cbn [taskrun.main];
    try reflexivity;
    destruct (n - 1 <? 0)%Z; reflexivity.
Qed.

Lemma taskrun_exec_late (evs : list taskrun.event) :
  forall c c', taskrun.exec evs c = Some c' ->
  taskrun.early (taskrun.main c) = false ->
  taskrun.early (taskrun.main c') = false.
Proof.
  induction evs as [|ev evs IH]; intros c c' H Hm; cbn [taskrun.exec] in H.
  - injection H as <-. exact Hm.
  - destruct (taskrun.step ev c) as [c1|] eqn:E; [|discriminate].
    eapply IH; [exact H|]. eapply taskrun_step_late; eassumption.
Qed.

(** After a failure on a pipe nothing happens any more. *)
Lemma taskrun_failed_stuck (err : taskrun.error) (n : Z)
    (evs : list taskrun.event) (c : taskrun.config) :
  taskrun.exec evs
    {| taskrun.main := taskrun.Failed err;
       taskrun.outDrain := taskrun.NotStarted;
       taskrun.errDrain := taskrun.NotStarted; taskrun.wg := n |} = Some c ->
  evs = [].
Proof.
  destruct evs as [|ev evs]; [reflexivity|].
  cbn [taskrun.exec]. destruct ev as [[?|]|[?|]| | | | |?| | | |];
    discriminate.
Qed.

(** X11: [Run] fails only on one of the two pipes, with the error of that
    pipe, and before anything else has happened: no goroutine has been
    started and [rsync.Run] has not been called. *)
Theorem Run_failure (evs : list taskrun.event) (c : taskrun.config)
    (err : taskrun.error) :
  taskrun.exec evs taskrun.init = Some c ->
  taskrun.main c = taskrun.Failed err ->
  exists e,
    err = Some e
    /\ (evs = [taskrun.StderrPipe (Some e)]
        \/ evs = [taskrun.StderrPipe None; taskrun.StdoutPipe (Some e)])
    /\ taskrun.outDrain c = taskrun.NotStarted
    /\ taskrun.errDrain c = taskrun.NotStarted.
Proof.
  intros H Hm.
  destruct evs as [|ev1 evs]; cbn [taskrun.exec] in H.
  { injection H as <-. discriminate Hm. }
  destruct ev1 as [[e1|]|[?|]| | | | |?| | | |]; try discriminate H.
  - cbn in H. pose proof (taskrun_failed_stuck _ _ _ _ H) as ->.
    cbn in H. injection H as <-. cbn in Hm. injection Hm as <-.
    exists e1. auto.
  - cbn [taskrun.step taskrun.init taskrun.main taskrun.moveTo
         taskrun.outDrain taskrun.errDrain taskrun.wg] in H.
    destruct evs as [|ev2 evs]; cbn [taskrun.exec] in H.
    { injection H as <-. discriminate Hm. }
    destruct ev2 as [[?|]|[e2|]| | | | |?| | | |]; try discriminate H.
    + cbn in H. pose proof (taskrun_failed_stuck _ _ _ _ H) as ->.
      cbn in H. injection H as <-. cbn in Hm. injection Hm as <-.
      exists e2. auto.
    + cbn [taskrun.step taskrun.main taskrun.moveTo
           taskrun.outDrain taskrun.errDrain taskrun.wg] in H.
      apply taskrun_exec_late in H; [|reflexivity].
      rewrite Hm in H. discriminate H.
Qed.

Lemma Run_failure_witness :
  exists e,
    Some "pipe: too many open files" = Some e
    /\ ([taskrun.StderrPipe None;
         taskrun.StdoutPipe (Some "pipe: too many open files")]
        = [taskrun.StderrPipe (Some e)]
        \/ [taskrun.StderrPipe None;
            taskrun.StdoutPipe (Some "pipe: too many open files")]
           = [taskrun.StderrPipe None; taskrun.StdoutPipe (Some e)])
    /\ taskrun.outDrain
         {| taskrun.main := taskrun.Failed (Some "pipe: too many open files");
            taskrun.outDrain := taskrun.NotStarted;
            taskrun.errDrain := taskrun.NotStarted; taskrun.wg := 0 |}
       = taskrun.NotStarted
    /\ taskrun.errDrain
         {| taskrun.main := taskrun.Failed (Some "pipe: too many open files");
            taskrun.outDrain := taskrun.NotStarted;
            taskrun.errDrain := taskrun.NotStarted; taskrun.wg := 0 |}
       = taskrun.NotStarted.
Proof.
  apply (Run_failure
           [taskrun.StderrPipe None;
            taskrun.StdoutPipe (Some "pipe: too many open files")]);
    reflexivity.
Defined.








(** X13: [Run] does not get stuck: from every configuration that a run
    reaches without a panic, [Run] can go on to its return; the two calls
    of [wg.Done] are what [wg.Wait] waits for. *)
Theorem Run_can_return (evs : list taskrun.event) (c : taskrun.config) :
  taskrun.exec evs taskrun.init = Some c ->
  taskrun.main c <> taskrun.Panicked ->
  exists c',
    taskrun.exec (taskrun.completion c) c = Some c'
    /\ taskrun.returned (taskrun.main c') = true.
Proof.
  intros H Hm.
  pose proof (taskrun_exec_invariant evs _ _ taskrun_init_invariant H) as I.
  destruct c as [m o e n]. unfold taskrun.invariant in I.
  cbn [taskrun.main taskrun.outDrain taskrun.errDrain taskrun.wg] in *.
  destruct m; try congruence;
    cbn [taskrun.rank Nat.ltb Nat.leb] in I;
    first
      [ destruct I as (I1 & I2 & -> & I4);
        destruct o; try discriminate I1;
        destruct e; try discriminate I2;
        try (destruct (I4 eq_refl) as [I5 I6];
             first [discriminate I5 | discriminate I6]);
        eexists; (split; reflexivity)
      | destruct I as (-> & ->); eexists; (split; reflexivity) ].
Qed.

Lemma Run_can_return_witness :
  exists c',
    taskrun.exec
      (taskrun.completion
         {| taskrun.main := taskrun.InRun;
            taskrun.outDrain := taskrun.Finished;
            taskrun.errDrain := taskrun.Draining; taskrun.wg := 1 |})
      {| taskrun.main := taskrun.InRun;
         taskrun.outDrain := taskrun.Finished;
         taskrun.errDrain := taskrun.Draining; taskrun.wg := 1 |} = Some c'
    /\ taskrun.returned (taskrun.main c') = true.
Proof.
  apply (Run_can_return
           [taskrun.StderrPipe None; taskrun.StdoutPipe None;
            taskrun.GoStdout; taskrun.GoStderr; taskrun.Add;
            taskrun.RunStart; taskrun.DoneStdout]);
    [reflexivity | discriminate].
Defined.

(** ** Lines that a pattern cannot match *)

(** A match of a pattern with a literal character passes over that
    character. *)
Lemma run_needs_literal (c : ascii) (re : Regexp) :
  In (One (Lit c)) re ->
  forall s pos g r, run re s pos g = Some r -> In c (list_ascii_of_string s).
Proof.
  induction re as [|n re IH]; intros Hin s pos g r H; [destruct Hin|].
  destruct n as [cl|cl|cl| |].
  - cbn [run] in H. destruct (step cl s) as [w|] eqn:Es; [|discriminate].
    destruct Hin as [E | Hin].
    + injection E as ->. destruct s as [|b s]; [discriminate|].
      cbn [step] in Es. destruct (Ascii.eqb b c) eqn:Eb; [|discriminate].
      apply Ascii.eqb_eq in Eb. left. exact Eb.
    + eapply In_sliceFrom, IH; eauto.
  - destruct Hin as [E | Hin]; [discriminate|].
    cbn [run] in H. destruct (step cl s) as [w|] eqn:Es; [|discriminate].
    apply In_sliceFrom with (n := w). revert H.
    generalize (pos + w)%nat. generalize (sliceFrom w s).
    generalize (length s). intros fuel.
    induction fuel as [|fuel IHf]; intros s' p H.
    + eapply IH; eauto.
    + cbn beta iota fix in H.
      destruct (step cl s') as [w'|] eqn:Es'; [|eapply IH; eauto].
      match type of H with
      | match ?X with _ => _ end = _ => destruct X as [r'|] eqn:Er
      end; [|eapply IH; eauto].
      injection H as <-.
      apply In_sliceFrom with (n := w'). eapply IHf. exact Er.
  - destruct Hin as [E | Hin]; [discriminate|].
    cbn [run] in H. revert H.
    generalize pos. generalize s at 2 3. generalize (length s). intros fuel.
    induction fuel as [|fuel IHf]; intros s' p H.
    + eapply IH; eauto.
    + cbn beta iota fix in H.
      destruct (step cl s') as [w'|] eqn:Es'; [|eapply IH; eauto].
      match type of H with
      | match ?X with _ => _ end = _ => destruct X as [r'|] eqn:Er
      end; [|eapply IH; eauto].
      injection H as <-.
      apply In_sliceFrom with (n := w'). eapply IHf. exact Er.
  - destruct Hin as [E | Hin]; [discriminate|].
    cbn [run] in H. eapply IH; eauto.
  - destruct Hin as [E | Hin]; [discriminate|].
    cbn [run] in H. eapply IH; eauto.
Qed.

Lemma search_needs_literal (c : ascii) (re : Regexp) :
  In (One (Lit c)) re ->
  forall fuel s pos r, search re fuel s pos = Some r ->
  In c (list_ascii_of_string s).
Proof.
  intros Hin. induction fuel as [|fuel IH]; intros s pos r H;
    cbn [search] in H;
    destruct (run re s pos (None, None)) as [[e g]|] eqn:E;
    try (eapply run_needs_literal; eauto; fail);
    try discriminate H.
  destruct s as [|b s]; [discriminate|].
  eapply In_sliceFrom, IH; eauto.
Qed.

Lemma Match_needs_literal (c : ascii) (re : Regexp) (data : string) :
  In (One (Lit c)) re -> noByte c data -> matcher.Match re data = false.
Proof.
  intros Hin Hno. unfold matcher.Match, MatchString.
  destruct (search re (length data) data 0) as [r|] eqn:E; [|reflexivity].
  exfalso. apply Hno. eapply search_needs_literal; eauto.
Qed.

(** X14: a line without a percent sign leaves the transferred bytes and
    percentage as they are, a line without a slash leaves the speed as it
    is, and a line without an equals sign leaves the two counters and the
    progress as they are. *)
Theorem processStdoutLine_untouched (task : Task) (logStr : string) :
  let st := state (processStdoutLine task logStr) in
  (noByte "%" logStr ->
   TransferedBytes st = TransferedBytes (state task)
   /\ TransferedPercent st = TransferedPercent (state task))
  /\ (noByte "/" logStr -> Speed st = Speed (state task))
  /\ (noByte "=" logStr ->
      Remain st = Remain (state task) /\ Total st = Total (state task)
      /\ Progress st = Progress (state task)).
Proof.
  cbv zeta. rewrite processStdoutLine_state. unfold lineState.
  cbn [TransferedBytes TransferedPercent Speed Remain Total Progress].
  split; [|split]; intros H.
  - rewrite (Match_needs_literal "%" transferedMatcher logStr); auto.
    cbn. auto 10.
  - rewrite (Match_needs_literal "/" speedMatcher logStr); auto.
    cbn. auto 10.
  - rewrite (Match_needs_literal "=" progressMatcher logStr); auto.
    cbn. auto 10.
Qed.

Lemma processStdoutLine_untouched_witness :
  Speed (state (processStdoutLine NewTask "file.txt")) = EmptyString.
Proof.
  apply (proj1 (proj2 (processStdoutLine_untouched NewTask "file.txt"))).
  intros H. cbn in H. intuition discriminate.
Defined.

(** ** The progress value is a number *)

Lemma shr_1_digits (r : shr_record) :
  (0 <= shr_m r)%Z ->
  (Zdigits2 (shr_m (shr_1 r)) <= Zdigits2 (shr_m r))%Z.
Proof.
  destruct r as [m rb sb]. destruct m as [|[p|p|]|[p|p|]]; simpl; lia.
Qed.

Lemma iter_shr_1_digits (p : positive) :
  forall r, (0 <= shr_m r)%Z ->
  (Zdigits2 (shr_m (iter_pos shr_1 p r)) <= Zdigits2 (shr_m r))%Z.
Proof.
  induction p as [p IH|p IH|]; intros r H; simpl.
  - pose proof (shr_1_nonneg r H) as H1.
    pose proof (iter_shr_1_nonneg p _ H1) as H2.
    pose proof (IH _ H2). pose proof (IH _ H1).
    pose proof (shr_1_digits r H). lia.
  - pose proof (iter_shr_1_nonneg p _ H) as H2.
    pose proof (IH _ H2). pose proof (IH _ H). lia.
  - apply shr_1_digits, H.
Qed.

Lemma shr_fexp_bounds (m e : Z) (l : location) :
  (0 <= m)%Z ->
  (Zdigits2 (shr_m (fst (shr_fexp float64.prec float64.emax m e l)))
   <= Zdigits2 m)%Z
  /\ (snd (shr_fexp float64.prec float64.emax m e l) = e
      \/ snd (shr_fexp float64.prec float64.emax m e l)
         = fexp float64.prec float64.emax (Zdigits2 m + e))%Z.
Proof.
  intros H. unfold shr_fexp, shr.
  assert (H0 : shr_m (shr_record_of_loc m l) = m)
    by (destruct l as [|[]]; reflexivity).
  destruct (_ - e)%Z as [|p|p] eqn:En; cbn [fst snd]; rewrite ?H0;
    try (split; [lia | now left]).
  split; [|right; lia].
  rewrite <- H0 at 2. apply iter_shr_1_digits. rewrite H0. exact H.
Qed.

Lemma digits2_succ (p : positive) :
  (Z.pos (digits2_pos (Pos.succ p)) <= Z.pos (digits2_pos p) + 1)%Z.
Proof. induction p as [p IH|p IH|]; simpl; lia. Qed.

Lemma round_nearest_even_digits (m : Z) (l : location) :
  (0 <= m)%Z -> (Zdigits2 (round_nearest_even m l) <= Zdigits2 m + 1)%Z.
Proof.
  intros H.
  assert (Zdigits2 (m + 1) <= Zdigits2 m + 1)%Z as H1.
  { destruct m as [|p|p]; [simpl; lia| |lia].
    change (Z.pos p + 1)%Z with (Z.pos (p + 1)). rewrite Pos.add_1_r.
    apply digits2_succ. }
  destruct l as [|[]]; simpl; try lia. destruct (Z.even m); lia.
Qed.

(** A mantissa of no more than 65 bits with an exponent that is not
    positive does not round to an infinity. *)
Lemma binary_round_aux_finite (s : bool) (m e : Z) (l : location) :
  (0 <= m)%Z -> (Zdigits2 m <= 65)%Z -> (e <= 0)%Z ->
  infinite (binary_round_aux float64.prec float64.emax s m e l) = false.
Proof.
  intros H HD He. unfold binary_round_aux.
  pose proof (shr_fexp_nonneg m e l H) as H1.
  destruct (shr_fexp_bounds m e l H) as [D1 E1].
  destruct (shr_fexp float64.prec float64.emax m e l) as [r1 e1].
  cbn [fst snd] in H1, D1, E1.
  pose proof (round_nearest_even_nonneg (shr_m r1) (loc_of_shr_record r1) H1)
    as H2.
  pose proof (round_nearest_even_digits (shr_m r1) (loc_of_shr_record r1) H1)
    as D2.
  destruct (shr_fexp_bounds _ e1 loc_Exact H2) as [D3 E3].
  destruct (shr_fexp float64.prec float64.emax _ e1 loc_Exact) as [r2 e2].
  cbn [fst snd] in D3, E3.
  destruct (shr_m r2) as [|p|p]; try reflexivity.
  replace (e2 <=? float64.emax - float64.prec)%Z with true; [reflexivity|].
  symmetry. apply Z.leb_le.
  unfold fexp, emin, float64.prec, float64.emax in *. lia.
Qed.

Lemma digits2_bound (p : positive) :
  forall k, (0 <= k)%Z -> (Z.pos p < 2 ^ k)%Z ->
  (Z.pos (digits2_pos p) <= k)%Z.
Proof.
  induction p as [p IH|p IH|]; intros k Hk H.
  - assert (k <> 0)%Z by (intros ->; simpl in H; lia).
    replace k with (Z.succ (k - 1)) in H by lia.
    rewrite Z.pow_succ_r in H by lia.
    pose proof (IH (k - 1)%Z). simpl. lia.
  - assert (k <> 0)%Z by (intros ->; simpl in H; lia).
    replace k with (Z.succ (k - 1)) in H by lia.
    rewrite Z.pow_succ_r in H by lia.
    pose proof (IH (k - 1)%Z). simpl. lia.
  - assert (k <> 0)%Z by (intros ->; simpl in H; lia).
    simpl. lia.
Qed.

Lemma digits2_iter_xO (p d : positive) :
  Z.pos (digits2_pos (Pos.iter xO p d))
  = (Z.pos (digits2_pos p) + Z.pos d)%Z.
Proof.
  induction d as [|d IH] using Pos.peano_ind.
  - simpl. lia.
  - rewrite Pos.iter_succ. simpl. lia.
Qed.

(** The conversion of an [int] is never an infinity. *)
Lemma ofInt_finite (z : Z) :
  (- 2 ^ 64 < z < 2 ^ 64)%Z -> infinite (float64.ofInt z) = false.
Proof.
  intros Hz. unfold float64.ofInt.
  assert (forall s p, (Z.pos p < 2 ^ 64)%Z ->
            infinite (binary_round float64.prec float64.emax s p 0) = false)
    as Hp.
  { intros s p Hlt. unfold binary_round, shl_align.
    pose proof (digits2_bound p 64 ltac:(lia) Hlt) as HD.
    destruct (_ - 0)%Z as [|d|d] eqn:Ed;
      try (apply binary_round_aux_finite; simpl; lia).
    apply binary_round_aux_finite; [lia| |].
    - cbn [Zdigits2]. rewrite digits2_iter_xO.
      unfold fexp, emin, float64.prec, float64.emax in Ed. lia.
    - unfold fexp, emin, float64.prec, float64.emax in *. lia. }
  destruct z as [|p|p]; cbn [binary_normalize]; [reflexivity| |];
    apply Hp; lia.
Qed.

Lemma wrapInt_range (z : Z) : (- 2 ^ 63 <= wrapInt z < 2 ^ 63)%Z.
Proof.
  unfold wrapInt.
  pose proof (Z.mod_pos_bound (z + 2 ^ 63) (2 ^ 64) ltac:(lia)). lia.
Qed.

Lemma ofInt_signed (z : Z) : signed (z <? 0)%Z (float64.ofInt z).
Proof.
  pose proof (binary_normalize_signed z 0 false) as H.
  destruct (z =? 0)%Z eqn:E; [|exact H].
  apply Z.eqb_eq in E. subst z. exact H.
Qed.

(** A number that is not an infinity, divided by a number that is at least
    one, is a number of the same sign. *)
Lemma div_signed (x y : float64.t) (s : bool) :
  signed s x -> infinite x = false ->
  float64.leb (float64.ofInt 1) y = true ->
  signed s (float64.div x y).
Proof.
  intros Hx Hfin Hy.
  change (float64.ofInt 1) with (S754_finite false 4503599627370496 (-52))
    in Hy.
  destruct y as [sy|sy| |sy my ey]; try discriminate Hy;
    destruct sy; try discriminate Hy;
    destruct x as [sx|sx| |sx mx ex]; try discriminate Hfin;
    cbn [signed] in Hx; try contradiction; subst sx;
    unfold float64.div; cbn [SFdiv signed];
    try (destruct s; reflexivity).
  unfold SFdiv_core_binary.
  set (e' := Z.min _ _). set (m' := match (ex - ey - e')%Z with
                                    | 0%Z => Z.pos mx
                                    | Z.pos _ => _
                                    | Z.neg _ => 0%Z
                                    end).
  assert (0 <= m')%Z as Hm.
  { unfold m'. destruct (ex - ey - e')%Z; try lia.
    apply Z.shiftl_nonneg. lia. }
  pose proof (Z_div_nonneg_nonneg m' (Z.pos my) Hm ltac:(lia)) as Hq.
  unfold Z.div in Hq.
  destruct (Z.div_eucl m' (Z.pos my)) as [q r]. cbn [fst] in Hq.
  replace (xorb s false) with s by (destruct s; reflexivity).
  apply binary_round_aux_signed. exact Hq.
Qed.

Lemma mul_100_signed (x : float64.t) (s : bool) :
  signed s x -> signed s (float64.mul x (float64.ofInt 100)).
Proof.
  intros Hx.
  change (float64.ofInt 100) with (S754_finite false 7036874417766400 (-46)).
  destruct x as [sx|sx| |sx mx ex]; cbn [signed] in Hx; try contradiction;
    subst sx; unfold float64.mul; cbn [SFmul signed];
    try (destruct s; reflexivity).
  replace (xorb s false) with s by (destruct s; reflexivity).
  apply binary_round_aux_signed. lia.
Qed.

Lemma progressOf_signed (remain total : Z) :
  signed (wrapInt (total - remain) <? 0)%Z (progressOf remain total).
Proof.
  unfold progressOf. apply mul_100_signed, div_signed.
  - apply ofInt_signed.
  - apply ofInt_finite. pose proof (wrapInt_range (total - remain)). lia.
  - apply divisor_ge_one, ofInt_not_nan.
Qed.

(** X15: the progress value of a counter is a number, never NaN, whatever
    the two numbers of the counter are (for a total of 0 the divisor is 1);
    it is negative exactly when the total less the remainder, as an [int],
    is negative. *)
Theorem progressOf_number (remain total : Z) :
  float64.isNaN (progressOf remain total) = false
  /\ float64.signbit (progressOf remain total)
     = (wrapInt (total - remain) <? 0)%Z.
Proof.
  pose proof (progressOf_signed remain total) as H.
  destruct (progressOf remain total); cbn [signed] in H;
    try contradiction; subst; split; reflexivity.
Qed.

(** X16: from a new task on, whatever lines [processStdout] sees, the
    progress of the state is a number, never NaN. *)
Theorem Progress_never_NaN (lines : list string) :
  float64.isNaN (Progress (state (processStdout NewTask lines))) = false.
Proof.
  rewrite processStdout_state.
  assert (float64.isNaN (Progress (state NewTask)) = false) as H
    by reflexivity.
  revert H. generalize (state NewTask) as st.
  induction lines as [|l lines IH]; intros st H; [exact H|].
  cbn [fold_left]. apply IH.
  change (Progress (lineState l st))
    with (if matcher.Match progressMatcher l
          then progressOf
                 (fst (getTaskProgress (matcher.Extract progressMatcher l)))
                 (snd (getTaskProgress (matcher.Extract progressMatcher l)))
          else Progress st).
  destruct (matcher.Match progressMatcher l); [|exact H].
  pose proof (progressOf_signed
                (fst (getTaskProgress (matcher.Extract progressMatcher l)))
                (snd (getTaskProgress (matcher.Extract progressMatcher l))))
    as Hs.
  destruct (progressOf _ _); cbn [signed] in Hs; try contradiction;
    reflexivity.
Qed.

(** ** The shape of the speed *)

Lemma sliceFrom_add (a b : nat) (s : string) :
  sliceFrom (a + b) s = sliceFrom b (sliceFrom a s).
Proof.
  revert s; induction a as [|a IH]; intros s; [reflexivity|].
  destruct s as [|c s]; cbn [Nat.add sliceFrom]; [now destruct b | apply IH].
Qed.

(** A match of [re1 ++ re2] ends with a match of [re2], further on in the
    text. *)
Lemma run_app (re1 re2 : Regexp) :
  forall s pos g r, run (re1 ++ re2)%list s pos g = Some r ->
  exists k g1, run re2 (sliceFrom k s) (pos + k) g1 = Some r.
Proof.
  induction re1 as [|n re1 IH]; intros s pos g r H.
  - exists 0%nat, g. now rewrite Nat.add_0_r.
  - assert (forall w s' p g',
              run (re1 ++ re2)%list (sliceFrom w s') (p + w) g' = Some r ->
              exists k g1, run re2 (sliceFrom k s') (p + k) g1 = Some r)
      as Hstep.
    { intros w s' p g' H'. destruct (IH _ _ _ _ H') as (k & g1 & Hk).
      exists (w + k)%nat, g1. now rewrite sliceFrom_add, Nat.add_assoc. }
    assert (forall s' p,
              run (re1 ++ re2)%list s' p g = Some r ->
              exists k g1, run re2 (sliceFrom k s') (p + k) g1 = Some r)
      as Hrest.
    { intros s' p H'. apply (Hstep 0%nat s' p g).
      now rewrite Nat.add_0_r. }
    destruct n as [cl|cl|cl| |]; cbn [app run] in H.
    + destruct (step cl s) as [w|] eqn:Es; [|discriminate].
      eapply Hstep; eauto.
    + destruct (step cl s) as [w|] eqn:Es; [|discriminate].
      assert (exists k g1,
                run re2 (sliceFrom k (sliceFrom w s)) (pos + w + k) g1
                = Some r) as (k & g1 & Hk).
      { revert H. generalize (pos + w)%nat. generalize (sliceFrom w s).
        generalize (length s). intros fuel.
        induction fuel as [|fuel IHf]; intros s' p H; [now apply Hrest|].
        cbn beta iota fix in H.
        destruct (step cl s') as [w'|] eqn:Es'; [|now apply Hrest].
        match type of H with
        | match ?X with _ => _ end = _ => destruct X as [r'|] eqn:Er
        end; [|now apply Hrest].
        injection H as <-. destruct (IHf _ _ Er) as (k & g1 & Hk).
        exists (w' + k)%nat, g1. now rewrite sliceFrom_add, Nat.add_assoc. }
      exists (w + k)%nat, g1. now rewrite sliceFrom_add, Nat.add_assoc.
    + revert H. generalize pos. generalize s at 2 3.
      generalize (length s). intros fuel.
      induction fuel as [|fuel IHf]; intros s' p H; [now apply Hrest|].
      cbn beta iota fix in H.
      destruct (step cl s') as [w'|] eqn:Es'; [|now apply Hrest].
      match type of H with
      | match ?X with _ => _ end = _ => destruct X as [r'|] eqn:Er
      end; [|now apply Hrest].
      injection H as <-. destruct (IHf _ _ Er) as (k & g1 & Hk).
      exists (w' + k)%nat, g1. now rewrite sliceFrom_add, Nat.add_assoc.
    + apply (Hstep 0%nat s pos (Some pos, snd g)). now rewrite Nat.add_0_r.
    + apply (Hstep 0%nat s pos (fst g, Some pos)). now rewrite Nat.add_0_r.
Qed.

(** The match that a search finds starts where the search has come to. *)
Lemma search_run (re : Regexp) (fuel : nat) :
  forall s pos b e g, search re fuel s pos = Some (b, e, g) ->
  exists k, b = (pos + k)%nat
            /\ run re (sliceFrom k s) b (None, None) = Some (e, g).
Proof.
  induction fuel as [|fuel IH]; intros s pos b e g H; cbn [search] in H;
    destruct (run re s pos (None, None)) as [[e' g']|] eqn:E;
    try (injection H as <- <- <-; exists 0%nat;
         rewrite Nat.add_0_r; auto; fail);
    try discriminate H.
  destruct s as [|c s]; [discriminate|].
  destruct (IH _ _ _ _ _ H) as (k & -> & Hk).
  exists (utf8.runeWidth (String c s) + k)%nat.
  rewrite sliceFrom_add, Nat.add_assoc. auto.
Qed.

Lemma sliceTo_two (k : nat) :
  forall s a b rest, sliceFrom k s = String a (String b rest) ->
  sliceTo (k + 2) s = sliceTo k s ++ String a (String b EmptyString).
Proof.
  induction k as [|k IH]; intros s a b rest H.
  - cbn [sliceFrom] in H. subst s. reflexivity.
  - destruct s as [|c s]; [discriminate|].
    cbn [sliceFrom] in H. cbn [Nat.add sliceTo append]. f_equal.
    eapply IH; eauto.
Qed.

(** What the speed pattern matches starts with a digit and ends with
    [/s]. *)
Lemma speed_match_shape (logStr : string) :
  matcher.Match speedMatcher logStr = true ->
  speedShaped
    (getTaskSpeed (matcher.ExtractAllStringSubmatch speedMatcher logStr 2))
  = true.
Proof.
  unfold matcher.Match, MatchString, matcher.ExtractAllStringSubmatch,
    FindAllStringSubmatch.
  cbn [findAllFrom]. rewrite Nat.sub_0_r. cbn [sliceFrom].
  destruct (search speedMatcher (length logStr) logStr 0)
    as [[[b e] g]|] eqn:E; [intros _|discriminate].
  cbn [submatch getTaskSpeed].
  destruct (search_run _ _ _ _ _ _ _ E) as (k & -> & Hrun).
  cbn [Nat.add] in *. unfold slice.
  set (s := sliceFrom k logStr) in *.
  (* the first character *)
  assert (exists c s', s = String c s' /\ isDigit c = true)
    as (c & s' & Es & Hc).
  { unfold speedMatcher in Hrun. cbn [run] in Hrun.
    destruct s as [|c s']; [discriminate|]. cbn [step] in Hrun.
    destruct (isDigit c) eqn:Hc; [|discriminate]. eauto. }
  (* the last two *)
  change speedMatcher
    with ([ Open; Plus Digit; One (Lit "."); Plus Digit; One AnyNotNL;
            One AnyNotNL ]
          ++ [ One (Lit "/"); One (Lit "s"); Close ])%list in Hrun.
  destruct (run_app _ _ _ _ _ _ Hrun) as (j & g1 & Hj).
  destruct (sliceFrom j s) as [|x [|y rest]] eqn:Ej;
    cbn [run step sliceFrom] in Hj; try discriminate Hj;
    destruct (Ascii.eqb x "/") eqn:Ex;
    cbn [run step sliceFrom] in Hj; try discriminate Hj.
  destruct (Ascii.eqb y "s") eqn:Ey; [|discriminate Hj].
  cbn [run] in Hj. injection Hj as <- _.
  apply Ascii.eqb_eq in Ex, Ey. subst x y.
  replace (k + j + 1 + 1 - k)%nat with (j + 2)%nat by lia.
  rewrite (sliceTo_two j s _ _ _ Ej).
  unfold speedShaped.
  destruct (sliceTo j s ++ "/s") as [|c0 t] eqn:Et.
  { destruct (sliceTo j s); discriminate Et. }
  assert (c0 = c) as ->.
  { rewrite Es in Et. destruct j as [|j]; cbn in Et.
    - rewrite Es in Ej. cbn in Ej. injection Ej as E1 _. subst c.
      discriminate Hc.
    - now injection Et as <- _. }
  rewrite Hc, <- Et. cbn [andb].
  apply HasSuffix_iff. now exists (sliceTo j s).
Qed.

(** X17: from a new task on, whatever lines [processStdout] sees, the speed
    of the state is empty (no line has shown a speed yet) or is a text that
    starts with a digit and ends with [/s]. *)
Theorem Speed_shape (lines : list string) :
  Speed (state (processStdout NewTask lines)) = EmptyString
  \/ speedShaped (Speed (state (processStdout NewTask lines))) = true.
Proof.
  rewrite processStdout_state.
  assert (Speed (state NewTask) = EmptyString
          \/ speedShaped (Speed (state NewTask)) = true) as H
    by (now left).
  revert H. generalize (state NewTask) as st.
  induction lines as [|l lines IH]; intros st H; [exact H|].
  cbn [fold_left]. apply IH.
  change (Speed (lineState l st))
    with (if matcher.Match speedMatcher l
          then getTaskSpeed
                 (matcher.ExtractAllStringSubmatch speedMatcher l 2)
          else Speed st).
  destruct (matcher.Match speedMatcher l) eqn:Em; [|exact H].
  right. now apply speed_match_shape.
Qed.

(** ** The counters are never negative *)

(** The character that [.] takes is whole, and is a slash or has none. *)
Lemma rune_no_slash (c0 : ascii) (r : string) :
  let s := String c0 r in
  let m := sliceTo (utf8.runeWidth s) s in
  s = m ++ sliceFrom (utf8.runeWidth s) s
  /\ length m = utf8.runeWidth s
  /\ (m = "/" \/ noByte "/" m).
Proof.
  cbv zeta. split; [now rewrite sliceTo_sliceFrom|].
  unfold utf8.runeWidth.
  repeat match goal with
    | |- context [if ?b then _ else _] => destruct b eqn:?
    | |- context [match ?x with EmptyString => _ | String _ _ => _ end] =>
        destruct x
    end;
    cbn [sliceTo length]; (split; [reflexivity|]);
    try (destruct (Ascii.eqb_spec c0 "/") as [-> | Hne];
         [ first [ now left | discriminate ]
         | right; intros [E | []]; congruence ]);
    right; unfold noByte; cbn [list_ascii_of_string In];
    intros Hin;
    repeat match goal with
      | H : _ \/ _ |- _ => destruct H as [H | H]
      | H : False |- _ => destruct H
      end;
    subst;
    repeat match goal with
      | H : (_ && _)%bool = true |- _ => apply andb_prop in H as [? ?]
      end;
    try discriminate;
    repeat match goal with
      | H : utf8.between _ _ "/" = true |- _ =>
          unfold utf8.between in H; cbn in H;
          repeat match type of H with
            | context [if ?b then _ else _] => destruct b
            end; discriminate H
      end.
Qed.

Lemma step_digit (s : string) (w : nat) :
  step Digit s = Some w ->
  exists c s', s = String c s' /\ isDigit c = true /\ w = 1%nat.
Proof.
  destruct s as [|c s']; [discriminate|]. cbn [step].
  destruct (isDigit c) eqn:Hc; [|discriminate].
  intros [= <-]. eauto.
Qed.

(** What [\d+] takes is a run of digits. *)
Lemma run_plus_digit (re : Regexp) (s : string) (pos : nat) (g : group)
    (r : nat * group) :
  run (Plus Digit :: re) s pos g = Some r ->
  exists d rest,
    s = d ++ rest /\ d <> EmptyString /\ allDigits d = true
    /\ run re rest (pos + length d) g = Some r.
Proof.
  cbn [run]. destruct (step Digit s) as [w|] eqn:Es; [|discriminate].
  apply step_digit in Es as (c & s' & -> & Hc & ->). cbn [sliceFrom].
  intros H.
  assert (exists d rest,
            s' = d ++ rest /\ allDigits d = true
            /\ run re rest (pos + 1 + length d) g = Some r)
    as (d & rest & -> & Hd & Hr).
  { revert H. generalize (pos + 1)%nat. generalize s' at 2 3.
    generalize (length (String c s')). intros fuel.
    induction fuel as [|fuel IHf]; intros t p H.
    - exists EmptyString, t. cbn [length]. rewrite Nat.add_0_r. auto.
    - cbn beta iota fix in H.
      destruct (step Digit t) as [w|] eqn:Et.
      + apply step_digit in Et as (x & t' & -> & Hx & ->).
        cbn [sliceFrom] in H.
        match type of H with
        | match ?X with _ => _ end = _ => destruct X as [r'|] eqn:Er
        end.
        * injection H as <-.
          destruct (IHf _ _ Er) as (d & rest & -> & Hd & Hr).
          exists (String x d), rest. cbn [append length].
          rewrite allDigits_cons, Hx, Hd.
          replace (p + S (length d))%nat with (p + 1 + length d)%nat by lia.
          auto.
        * exists EmptyString, (String x t'). cbn [length].
          rewrite Nat.add_0_r. auto.
      + exists EmptyString, t. cbn [length]. rewrite Nat.add_0_r. auto. }
  exists (String c d), rest. cbn [append length].
  rewrite allDigits_cons, Hc, Hd.
  replace (pos + S (length d))%nat with (pos + 1 + length d)%nat by lia.
  repeat split; auto. discriminate.
Qed.

(** What [.] takes is one character. *)
Lemma run_one_any (re : Regexp) (s : string) (pos : nat) (g : group)
    (r : nat * group) :
  run (One AnyNotNL :: re) s pos g = Some r ->
  exists m rest,
    s = m ++ rest /\ (m = "/" \/ noByte "/" m)
    /\ run re rest (pos + length m) g = Some r.
Proof.
  cbn [run]. destruct s as [|c s']; [discriminate|]. cbn [step].
  destruct (Ascii.eqb c LF); [discriminate|].
  intros H. destruct (rune_no_slash c s') as (E & L & M).
  cbv zeta in *.
  exists (sliceTo (utf8.runeWidth (String c s')) (String c s')),
         (sliceFrom (utf8.runeWidth (String c s')) (String c s')).
  rewrite L. auto.
Qed.

(** The group of the counter: digits, one character, digits. *)
Lemma run_counter_group (s : string) (pos : nat) (g : group) (e : nat)
    (g' : group) :
  run [Open; Plus Digit; One AnyNotNL; Plus Digit; Close] s pos g
  = Some (e, g') ->
  exists d1 m d2 rest,
    s = (d1 ++ m ++ d2) ++ rest
    /\ g' = (Some pos, Some (pos + length (d1 ++ m ++ d2))%nat)
    /\ d1 <> EmptyString /\ allDigits d1 = true
    /\ (m = "/" \/ noByte "/" m)
    /\ d2 <> EmptyString /\ allDigits d2 = true.
Proof.
  intros H. cbn [run] in H.
  change (run (Plus Digit :: One AnyNotNL :: Plus Digit :: [Close]) s pos
            (Some pos, snd g) = Some (e, g')) in H.
  apply run_plus_digit in H as (d1 & r1 & -> & N1 & D1 & H).
  apply run_one_any in H as (m & r2 & -> & M & H).
  apply run_plus_digit in H as (d2 & r3 & -> & N2 & D2 & H).
  cbn [run fst snd] in H. injection H as <- <-.
  exists d1, m, d2, r3. rewrite !length_app, !app_assoc_s.
  repeat split; auto. do 2 f_equal. lia.
Qed.

Lemma decimalFrom_bound (s : string) :
  forall n, allDigits s = true -> (0 <= n)%Z ->
  (strconv.decimalFrom n s < (n + 1) * 10 ^ Z.of_nat (length s))%Z.
Proof.
  induction s as [|c s IH]; intros n Hd Hn.
  - cbn [strconv.decimalFrom length Z.of_nat]. lia.
  - rewrite allDigits_cons in Hd. apply andb_prop in Hd as [Hc Hs].
    pose proof (isDigit_digitVal c Hc) as Hv.
    cbn [strconv.decimalFrom length]. rewrite Nat2Z.inj_succ.
    rewrite Z.pow_succ_r by lia.
    specialize (IH (n * 10 + strconv.digitVal c)%Z Hs ltac:(lia)).
    assert (0 < 10 ^ Z.of_nat (length s))%Z by (apply Z.pow_pos_nonneg; lia).
    nia.
Qed.

Lemma parseUintLoop_digits_range (s : string) :
  forall n, allDigits s = true -> (0 <= n <= strconv.maxUint64)%Z ->
  (0 <= fst (strconv.parseUintLoop s n) <= strconv.maxUint64)%Z
  /\ snd (strconv.parseUintLoop s n) <> Some strconv.ErrSyntax.
Proof.
  induction s as [|c s IH]; intros n Hd Hn.
  - cbn [strconv.parseUintLoop fst snd]. split; [lia | discriminate].
  - rewrite allDigits_cons in Hd. apply andb_prop in Hd as [Hc Hs].
    cbn [strconv.parseUintLoop]. rewrite Hc. cbv zeta.
    assert (0 <= 2 ^ strconv.intSize - 1 <= strconv.maxUint64)%Z as Hmax
      by (unfold strconv.intSize, strconv.maxUint64; lia).
    destruct (_ <=? n)%Z; [cbn [fst snd]; split; [lia | discriminate]|].
    destruct (_ || _); [cbn [fst snd]; split; [lia | discriminate]|].
    apply IH; [exact Hs|].
    pose proof (Z.mod_pos_bound ((n * 10) mod 2 ^ 64 + strconv.digitVal c)
                  (2 ^ 64) ltac:(lia)).
    unfold strconv.maxUint64. lia.
Qed.

(** A run of digits never reads as a negative number: beyond the range of
    [int] it reads as the largest [int]. *)
Lemma Atoi_digits_range (s : string) :
  allDigits s = true -> (0 <= fst (strconv.Atoi s) <= maxInt)%Z.
Proof.
  intros Hd. unfold strconv.Atoi.
  destruct ((0 <? length s) && (length s <? 19))%nat eqn:El.
  - apply andb_prop in El as [_ El]. apply Nat.ltb_lt in El.
    destruct s as [|c s]; [cbn; unfold maxInt; lia|].
    pose proof Hd as Hd'. rewrite allDigits_cons in Hd'.
    apply andb_prop in Hd' as [Hc _].
    destruct (digit_not_sign c Hc) as [Hp Hm]. rewrite Hp, Hm.
    cbn [orb andb]. rewrite (atoiLoop_digits _ 0%Z Hd). cbn [fst].
    pose proof (decimalFrom_ge _ 0%Z Hd ltac:(lia)).
    pose proof (decimalFrom_bound _ 0%Z Hd ltac:(lia)) as Hb.
    assert (10 ^ Z.of_nat (length (String c s)) <= 10 ^ 18)%Z
      by (apply Z.pow_le_mono_r; lia).
    unfold maxInt. lia.
  - unfold strconv.ParseInt. destruct s as [|c s]; [cbn; unfold maxInt; lia|].
    pose proof Hd as Hd'. rewrite allDigits_cons in Hd'.
    apply andb_prop in Hd' as [Hc _].
    destruct (digit_not_sign c Hc) as [Hp Hm]. rewrite Hp, Hm.
    cbn [orb andb negb]. unfold strconv.ParseUint.
    destruct (parseUintLoop_digits_range (String c s) 0%Z Hd
                ltac:(unfold strconv.maxUint64; lia)) as [Hr He].
    destruct (strconv.parseUintLoop (String c s) 0) as [un err].
    cbn [fst snd] in Hr, He.
    assert (0 <= fst (let cutoff := (2 ^ (strconv.intSize - 1))%Z in
                      if (cutoff <=? un)%Z
                      then ((cutoff - 1)%Z, Some strconv.ErrRange)
                      else (un, @None strconv.numError)) <= maxInt)%Z as H.
    { cbv zeta. unfold strconv.intSize, maxInt.
      destruct (_ <=? un)%Z eqn:E; cbn [fst]; [lia|].
      apply Z.leb_gt in E. lia. }
    destruct err as [[|]|]; [congruence | exact H | exact H].
Qed.

Lemma noByte_app (c : ascii) (a b : string) :
  noByte c (a ++ b) <-> noByte c a /\ noByte c b.
Proof.
  induction a as [|x a IH]; cbn [append].
  - split; [intros H; split; [intros [] | exact H] | tauto].
  - rewrite !noByte_cons, IH. tauto.
Qed.

Lemma getTaskProgress_no_slash (s : string) :
  noByte "/" s -> getTaskProgress s = (0%Z, 0%Z).
Proof.
  intros H. unfold getTaskProgress, strings.Split.
  now rewrite (splitFrom_none "/" s H).
Qed.

(** The text that the counter pattern captures is read as two numbers
    that are not negative. *)
Lemma counter_capture_range (logStr : string) :
  let rt := getTaskProgress (matcher.Extract progressMatcher logStr) in
  (0 <= fst rt <= maxInt)%Z /\ (0 <= snd rt <= maxInt)%Z.
Proof.
  cbv zeta.
  assert (forall s, s = EmptyString ->
            (0 <= fst (getTaskProgress s) <= maxInt)%Z
            /\ (0 <= snd (getTaskProgress s) <= maxInt)%Z) as Hempty
    by (intros s ->; cbn; unfold maxInt; lia).
  unfold matcher.Extract, FindAllStringSubmatch.
  cbn [findAllFrom]. rewrite Nat.sub_0_r. cbn [sliceFrom].
  destruct (search progressMatcher (length logStr) logStr 0)
    as [[[b e] g]|] eqn:E; [|now apply Hempty].
  cbn [submatch].
  destruct (search_run _ _ _ _ _ _ _ E) as (k & -> & Hrun).
  cbn [Nat.add] in *.
  change progressMatcher
    with ([ One (Lit "("); Plus AnyNotNL; One (Lit "-"); One (Lit "c");
            One (Lit "h"); One (Lit "k"); One (Lit "=") ]
          ++ [ Open; Plus Digit; One AnyNotNL; Plus Digit; Close ])%list
    in Hrun.
  destruct (run_app _ _ _ _ _ _ Hrun) as (j & g1 & Hj).
  apply run_counter_group in Hj
    as (d1 & m & d2 & rest & Es & -> & N1 & D1 & M & N2 & D2).
  rewrite <- sliceFrom_add in Es. unfold slice.
  replace (k + j + length (d1 ++ m ++ d2) - (k + j))%nat
    with (length (d1 ++ m ++ d2)) by lia.
  rewrite Es, sliceTo_app.
  assert (isDigit "/" = false) as Hslash by reflexivity.
  destruct M as [-> | M].
  - rewrite getTaskProgress_halves by (now apply allDigits_noByte).
    cbn [fst snd]. split; now apply Atoi_digits_range.
  - rewrite getTaskProgress_no_slash; [cbn; unfold maxInt; lia|].
    apply noByte_app. split; [now apply allDigits_noByte|].
    apply noByte_app. split; [exact M | now apply allDigits_noByte].
Qed.

Lemma wrapInt_small (z : Z) :
  (- 2 ^ 63 <= z < 2 ^ 63)%Z -> wrapInt z = z.
Proof.
  intros H. unfold wrapInt. rewrite Z.mod_small; lia.
Qed.

(** What holds of the state of a new task and after every line. *)
Lemma counters_invariant (lines : list string) :
  forall st,
  ((0 <= Remain st <= maxInt)%Z /\ (0 <= Total st <= maxInt)%Z
   /\ Progress st = progressOf (Remain st) (Total st)) ->
  let st' := fold_left (fun st l => lineState l st) lines st in
  (0 <= Remain st' <= maxInt)%Z /\ (0 <= Total st' <= maxInt)%Z
  /\ Progress st' = progressOf (Remain st') (Total st').
Proof.
  induction lines as [|l lines IH]; intros st H; [exact H|].
  cbn [fold_left]. apply IH. unfold lineState.
  cbn [Remain Total Progress].
  destruct (matcher.Match progressMatcher l); [|exact H].
  destruct (counter_capture_range l) as [H1 H2]. cbv zeta in H1, H2.
  auto.
Qed.


(** X19: from a new task on, the progress of the state is always the one
    computed from the two counters of the state, and the difference of the
    counters in that computation never wraps around. *)
Theorem Progress_of_counters (lines : list string) :
  let st := state (processStdout NewTask lines) in
  Progress st = progressOf (Remain st) (Total st)
  /\ wrapInt (Total st - Remain st) = (Total st - Remain st)%Z.
Proof.
  cbv zeta. rewrite processStdout_state.
  destruct (counters_invariant lines (state NewTask)) as (H1 & H2 & H3).
  - assert (progressOf 0 0 = float64.zero) as E by (vm_compute; reflexivity).
    cbn [NewTask state emptyState Remain Total Progress]. rewrite E.
    unfold maxInt. repeat split; lia.
  - split; [exact H3|]. apply wrapInt_small. unfold maxInt in *. lia.
Qed.
